(** * The resume-analysis workflow state: transitions, progress, factory, file validation

    A shallow embedding of [states/ResumeAnalysisState.py] and of
    [validate_file] from [src/utils/utilities.py].  Python dictionaries are
    finite maps, [float] is IEEE-754 binary64 (as a [spec_float]), [int] is
    [Z], [Optional[T]] is [option T], a raised exception is a value of
    [result]. *)

From Stdlib Require Import ZArith QArith Ascii String Floats.SpecFloat.
From stdpp Require Import base option list strings gmap.

Local Open Scope string_scope.
Local Open Scope Z_scope.

(** ** The Python values the two modules compute with *)

Module Py.

(** Python's [float]: binary64, 53 bits of precision. *)
Definition prec : Z := 53.
Definition emax : Z := 1024.

Abbreviation float := spec_float.

(** A literal such as [10.0] or [0.0]: the binary64 nearest to the integer
    written before the point. *)
Definition float_lit (n : Z) : float := binary_normalize prec emax n 0 false.

(** Zero or a finite non-zero number: neither an infinity nor NaN. *)
Definition float_is_finite (x : float) : bool :=
  match x with S754_zero _ | S754_finite _ _ _ => true | _ => false end.

(** [x <= y] on two floats. *)
Definition float_le (x y : float) : bool := SFleb x y.

(** The exact rational a float denotes (none for infinities and NaN). *)
Definition float_value (x : float) : option Q :=
  match x with
  | S754_zero _ => Some (0 # 1)%Q
  | S754_finite s m e =>
      let a := if s then Z.neg m else Z.pos m in
      Some (Qred (inject_Z a * Qpower (2 # 1) e))
  | _ => None
  end.

(** Whether each float of a list is [<=] the next one. *)
Fixpoint nondecreasing (l : list float) : bool :=
  match l with
  | x :: (y :: _) as l' => float_le x y && nondecreasing l'
  | _ => true
  end.

(** [x in l] for a list of strings: the elements are compared with [==]. *)
Fixpoint str_in (x : string) (l : list string) : bool :=
  match l with
  | [] => false
  | y :: l' => if decide (x = y) then true else str_in x l'
  end.

(** *** Exceptions *)

Inductive exn := OSError | OverflowError | ZeroDivisionError | ValueError.

(** The outcome of a call: a returned value or a raised exception. *)
Inductive result (A : Type) :=
  | Ok (a : A)
  | Raise (e : exn).
Arguments Ok {A} a.
Arguments Raise {A} e.

#[global] Instance result_ret : MRet result := @Ok.
#[global] Instance result_bind : MBind result := λ A B f m,
  match m with Ok a => f a | Raise e => Raise e end.

(** *** [int / int] and [float > int] *)

(** True division of two integers: the binary64 nearest to the exact
    quotient (ties to even), [ZeroDivisionError] for a zero divisor and
    [OverflowError] when the quotient is too large for a float. *)
Definition int_truediv (a b : Z) : result float :=
  if b =? 0 then Raise ZeroDivisionError
  else
    let negate := xorb (a <? 0) (b <? 0) in
    if a =? 0 then Ok (S754_zero negate)
    else
      let '(q, e, l) := SFdiv_core_binary prec emax (Z.abs a) 0 (Z.abs b) 0 in
      match binary_round_aux prec emax negate q e l with
      | S754_infinity _ => Raise OverflowError
      | f => Ok f
      end.

(** [x > n] for a float [x] and an integer [n]: the two are compared as
    exact numbers; every comparison with NaN is false. *)
Definition float_gt_int (x : float) (n : Z) : bool :=
  match x with
  | S754_nan => false
  | S754_infinity s => negb s
  | S754_zero _ => n <? 0
  | S754_finite s m e =>
      let a := if s then Z.neg m else Z.pos m in
      if 0 <=? e then n <? a * 2 ^ e else n * 2 ^ (- e) <? a
  end.

(** *** Decimal output *)

Definition digit_char (d : Z) : ascii :=
  ascii_of_nat (48 + Z.to_nat d).

(** The digits of [n / 10^k ... n], most significant first, in front of [acc]. *)
Fixpoint decimal_go (fuel : nat) (n : Z) (acc : string) : string :=
  match fuel with
  | O => acc
  | S fuel' =>
      let acc' := String (digit_char (n mod 10)) acc in
      if n / 10 =? 0 then acc' else decimal_go fuel' (n / 10) acc'
  end.

(** The decimal numeral of a natural number; a number has no more decimal
    digits than binary ones. *)
Definition decimal (n : Z) : string :=
  decimal_go (S (Z.to_nat (Z.log2 n))) n "".

(** [sys.int_max_str_digits] at its default: the longest numeral, in
    digits, that a conversion between [int] and [str] may write. *)
Definition int_max_str_digits : Z := 4300.

(** [str(n)], also what [{n}] gives in an f-string: the numeral of [n], or
    [ValueError] when it would have more than [int_max_str_digits] digits. *)
Definition str_int (n : Z) : result string :=
  if 10 ^ int_max_str_digits <=? Z.abs n then Raise ValueError
  else Ok (if n <? 0 then "-" +:+ decimal (- n) else decimal n).
Arguments str_int : simpl never.

Fixpoint zeros (k : nat) : string :=
  match k with O => "" | S k' => String "0" (zeros k') end.

(** ['%0wd' % n] and ['{:0wd}'.format(n)]: the sign, then the numeral
    padded with zeros on the left to [w] characters in all. *)
Definition format_0d (w : nat) (n : Z) : string :=
  if n <? 0 then
    let d := decimal (- n) in "-" +:+ zeros (w - 1 - String.length d) +:+ d
  else
    let d := decimal n in zeros (w - String.length d) +:+ d.

(** The [w] low decimal digits of [n], most significant first: what
    [format_0d w n] writes when [0 <= n < 10^w]. *)
Fixpoint digits_msb (w : nat) (n : Z) : string :=
  match w with
  | O => ""
  | S w' => String (digit_char (n / 10 ^ Z.of_nat w' mod 10)) (digits_msb w' n)
  end.

(** [n / d] rounded to the nearest integer, ties to even ([0 <= n], [0 < d]). *)
Definition div_half_even (n d : Z) : Z :=
  let q := n / d in
  let r := n mod d in
  match 2 * r ?= d with
  | Lt => q
  | Gt => q + 1
  | Eq => if Z.even q then q else q + 1
  end.

(** [f'{x:.1f}']: the decimal with one digit after the point nearest to the
    exact value of [x], ties to even. *)
Definition format_float_1f (x : float) : string :=
  match x with
  | S754_nan => "nan"
  | S754_infinity s => if s then "-inf" else "inf"
  | S754_zero s => if s then "-0.0" else "0.0"
  | S754_finite s m e =>
      let tenths :=
        if 0 <=? e then 10 * Z.pos m * 2 ^ e
        else div_half_even (10 * Z.pos m) (2 ^ (- e)) in
      (if s then "-" else "") +:+
      decimal (tenths / 10) +:+ "." +:+ decimal (tenths mod 10)
  end.

(** [repr] of a string without quotes, backslashes or control characters. *)
Definition repr_str (s : string) : string := "'" +:+ s +:+ "'".

(** [repr] of a list of such strings, also what [{l}] gives in an f-string. *)
Definition repr_list_str (l : list string) : string :=
  "[" +:+ String.concat ", " (repr_str <$> l) +:+ "]".

(** *** String methods *)

(** [s.isascii()]: every character of [s] is below 128. *)
Definition ascii_isascii (c : ascii) : bool := (nat_of_ascii c <? 128)%nat.

Fixpoint str_isascii (s : string) : bool :=
  match s with
  | EmptyString => true
  | String c s' => ascii_isascii c && str_isascii s'
  end.

(** [c.lower()] for one character of ASCII text. *)
Definition ascii_lower (c : ascii) : ascii :=
  let n := nat_of_ascii c in
  if (65 <=? n)%nat && (n <=? 90)%nat then ascii_of_nat (n + 32) else c.

(** [s.lower()] for ASCII text, that is for [s] with [str_isascii s]:
    [A]..[Z] become [a]..[z], every other character is kept.  On other
    text Python's [lower] also maps letters outside ASCII, by the Unicode
    tables, which this function leaves as they are: a statement about the
    lowercased text itself is made for ASCII text only. *)
Fixpoint str_lower (s : string) : string :=
  match s with
  | EmptyString => EmptyString
  | String c s' => String (ascii_lower c) (str_lower s')
  end.

Fixpoint rfind_from (c : ascii) (s : string) (i last : Z) : Z :=
  match s with
  | EmptyString => last
  | String x s' => rfind_from c s' (i + 1) (if decide (x = c) then i else last)
  end.

(** [s.rfind(c)] for a one-character [c]: the highest index of [c] in [s],
    [-1] when there is none. *)
Definition str_rfind (s : string) (c : ascii) : Z := rfind_from c s 0 (-1).

(** [s[:k]] and [s[k:]] for [0 <= k]. *)
Definition str_take (k : Z) (s : string) : string :=
  String.substring 0 (Z.to_nat k) s.
Definition str_drop (k : Z) (s : string) : string :=
  String.substring (Z.to_nat k) (String.length s - Z.to_nat k) s.

(** [s[i:i+1]] for [0 <= i]. *)
Definition str_slice1 (i : Z) (s : string) : string :=
  String.substring (Z.to_nat i) 1 s.

(** [x < y] on two floats. *)
Definition float_lt (x y : float) : bool := SFltb x y.

(** [round(x, ndigits)] for [ndigits >= 0]: the decimal with [ndigits]
    digits after the point nearest to the exact value of [x] (ties to
    even), then the float nearest to that decimal; zeros, infinities and
    NaN round to themselves. *)
Definition float_round (x : float) (ndigits : nat) : result float :=
  match x with
  | S754_finite s m e =>
      let k := 10 ^ Z.of_nat ndigits in
      let n :=
        if 0 <=? e then k * Z.pos m * 2 ^ e
        else div_half_even (k * Z.pos m) (2 ^ (- e)) in
      if n =? 0 then Ok (S754_zero s)
      else int_truediv (if s then - n else n) k
  | _ => Ok x
  end.

(** *** Unicode text *)

(** Text as a sequence of Unicode code points, for the functions whose
    result depends on characters outside ASCII. *)
Definition text := list N.

(** The text of a literal of ASCII characters. *)
Definition text_of (s : string) : text := N_of_ascii <$> list_ascii_of_string s.

(** [c.isspace()] for the code point [c]: the ASCII white space (tab to
    carriage return, the separators [\x1c]..[\x1f], the space), NEL,
    the no-break space, and the Unicode spaces and line separators. *)
Definition isspace (c : N) : bool :=
  (((9 <=? c) && (c <=? 13)) || ((28 <=? c) && (c <=? 32)) ||
   (c =? 133) || (c =? 160) || (c =? 5760) ||
   ((8192 <=? c) && (c <=? 8202)) || (c =? 8232) || (c =? 8233) ||
   (c =? 8239) || (c =? 8287) || (c =? 12288))%N.

(** [s.lstrip()], [s.rstrip()] and [s.strip()]. *)
Fixpoint lstrip (s : text) : text :=
  match s with
  | [] => []
  | c :: s' => if isspace c then lstrip s' else s
  end.

Fixpoint rstrip (s : text) : text :=
  match s with
  | [] => []
  | c :: s' =>
      match rstrip s' with
      | [] => if isspace c then [] else [c]
      | r => c :: r
      end
  end.

Definition strip (s : text) : text := rstrip (lstrip s).

End Py.

(** ** The part of [os.path] that [validate_file] calls (POSIX) *)

Module os_path.
Import Py.

(** What [os.stat] sees: the paths it succeeds on, each with its [st_size]. *)
Abbreviation filesystem := (gmap string Z).

(** [st_size] is a non-negative 64-bit signed file offset. *)
Definition fs_wf (fs : filesystem) : Prop :=
  map_Forall (λ _ sz, 0 ≤ sz < 2 ^ 63) fs.

(** [os.path.exists(p)]: whether [os.stat(p)] succeeds. *)
Definition exists_ (fs : filesystem) (p : string) : bool :=
  bool_decide (is_Some (fs !! p)).

(** [os.path.getsize(p)]: [os.stat(p).st_size]; [OSError] when [os.stat] fails. *)
Definition getsize (fs : filesystem) (p : string) : result Z :=
  match fs !! p with
  | Some sz => Ok sz
  | None => Raise OSError
  end.

(** The loop of [genericpath._splitext] that skips the leading dots of the
    file name: [true] as soon as a character before [dotIndex] is not a dot. *)
Fixpoint splitext_scan (fuel : nat) (p : string) (filenameIndex : Z) : bool :=
  match fuel with
  | O => false
  | S fuel' =>
      if decide (str_slice1 filenameIndex p ≠ ".") then true
      else splitext_scan fuel' p (filenameIndex + 1)
  end.

(** [os.path.splitext(p)], that is [genericpath._splitext(p, '/', None, '.')]. *)
Definition splitext (p : string) : string * string :=
  let sepIndex := str_rfind p "/" in
  let dotIndex := str_rfind p "." in
  if (sepIndex <? dotIndex)
     && splitext_scan (Z.to_nat (dotIndex - (sepIndex + 1))) p (sepIndex + 1)
  then (str_take dotIndex p, str_drop dotIndex p)
  else (p, str_take 0 p).

(** [os.path.basename(p)]: [p[p.rfind('/') + 1:]]. *)
Definition basename (p : string) : string :=
  str_drop (str_rfind p "/" + 1) p.

End os_path.

(** ** The part of [datetime] that [create_initial_state] calls *)

Module datetime.
Import Py.

(** A naive [datetime] object, as [datetime.now()] returns it. *)
Record datetime := {
  year : Z; month : Z; day : Z;
  hour : Z; minute : Z; second : Z; microsecond : Z
}.

(** The ranges the [datetime] class keeps its fields in. *)
Definition datetime_wf (d : datetime) : Prop :=
  1 ≤ year d ≤ 9999 ∧ 1 ≤ month d ≤ 12 ∧ 1 ≤ day d ≤ 31 ∧
  0 ≤ hour d ≤ 23 ∧ 0 ≤ minute d ≤ 59 ∧ 0 ≤ second d ≤ 59 ∧
  0 ≤ microsecond d ≤ 999999.

(** The system clock; [datetime.now()] reads it. *)
Record World := { clock : datetime }.

Definition now (w : World) : datetime := clock w.

(** [_format_time(hh, mm, ss, us, 'auto')]: the microseconds are written
    only when they are not zero. *)
Definition format_time (hh mm ss us : Z) : string :=
  let hms := format_0d 2 hh +:+ ":" +:+ format_0d 2 mm +:+ ":" +:+ format_0d 2 ss in
  if us =? 0 then hms else hms +:+ "." +:+ format_0d 6 us.

(** [d.isoformat()] of a naive [d]: ['%04d-%02d-%02dT'] and the time. *)
Definition isoformat (d : datetime) : string :=
  format_0d 4 (year d) +:+ "-" +:+ format_0d 2 (month d) +:+ "-" +:+
  format_0d 2 (day d) +:+ "T" +:+
  format_time (hour d) (minute d) (second d) (microsecond d).

End datetime.

(** ** src/utils/utilities.py *)

Module utilities.
Import Py os_path.

(** [validate_file(file_path, max_size_mb=5)], run on the filesystem [fs]. *)
Definition validate_file (fs : filesystem) (file_path : string) (max_size_mb : Z)
  : result (bool * option string) :=
  if negb (exists_ fs file_path) then
    mret (false, Some "File does not exist")
  else
    size ← getsize fs file_path;
    file_size_mb ← int_truediv size (1024 * 1024);
    if float_gt_int file_size_mb max_size_mb then
      max_text ← str_int max_size_mb;
      mret (false, Some ("File too large: " +:+ format_float_1f file_size_mb +:+
                         "MB (max: " +:+ max_text +:+ "MB)"))
    else
      let allowed_extensions := [".pdf"; ".docx"; ".txt"] in
      let file_ext := (splitext (str_lower file_path)).2 in
      if negb (str_in file_ext allowed_extensions) then
        mret (false, Some ("Unsupported file type: " +:+ file_ext +:+
                           ". Allowed: " +:+ repr_list_str allowed_extensions))
      else
        mret (true, None).

(** The values of the dictionary [get_file_info] returns. *)
Inductive info_value :=
  | IStr (s : string)
  | IFloat (x : float)
  | IBool (b : bool).

(** [get_file_info(file_path)], run on the filesystem [fs]. *)
Definition get_file_info (fs : filesystem) (file_path : string)
  : result (gmap string info_value) :=
  if negb (exists_ fs file_path) then
    mret {[ "error" := IStr "File not found" ]}
  else
    size ← getsize fs file_path;
    file_size_mb ← int_truediv size (1024 * 1024);
    let file_ext := str_lower (splitext file_path).2 in
    size_mb ← float_round file_size_mb 2;
    mret (<[ "filename" := IStr (basename file_path) ]>
          (<[ "extension" := IStr file_ext ]>
           (<[ "size_mb" := IFloat size_mb ]>
            (<[ "exists" := IBool true ]> ∅)))).

(** [format_job_search_query(job_title, location="Remote")] on Unicode
    text.  [lower] is [str.lower], the Unicode lowercase of a text, taken as
    it is from the library. *)
Section format_job_search_query.
Context (lower : text → text).

Definition format_job_search_query (job_title location : text) : text :=
  let job_title := strip job_title in
  if negb (bool_decide (location = [])) &&
     negb (bool_decide (lower location = text_of "remote"))
  then (job_title ++ text_of " jobs in " ++ location)%list
  else (job_title ++ text_of " remote jobs")%list.

End format_job_search_query.

(** [format_context_for_llm(context)], for any type [V] of dictionary
    values with its truth value [bool(v)] and its text [str(v)]. *)
Section format_context.
Context {V : Type} (truthy : V → bool) (str : V → string).

(** [if context.get(key): context_parts.append(f"{label}{context[key]}")];
    [get] gives [None], which is false, for a missing key. *)
Definition append_field (context : gmap string V) (key label : string)
    (context_parts : list string) : list string :=
  match context !! key with
  | Some v => if truthy v then context_parts ++ [label +:+ str v] else context_parts
  | None => context_parts
  end.

Definition format_context_for_llm (context : gmap string V) : string :=
  let context_parts := [] in
  let context_parts :=
    append_field context "target_job_title" "Target Job: " context_parts in
  let context_parts :=
    append_field context "target_industry" "Target Industry: " context_parts in
  let context_parts :=
    append_field context "experience_level" "Experience Level: " context_parts in
  let context_parts :=
    append_field context "target_location" "Target Location: " context_parts in
  match context_parts with
  | [] => ""
  | _ => String.concat " | " context_parts
  end.

End format_context.

End utilities.

(** ** states/ResumeAnalysisState.py *)

Module ResumeAnalysisState.
Import Py datetime.

(** A value of type [Any], as far as JSON-like data goes. *)
#[local] Unset Elimination Schemes.
Inductive py_value :=
  | PNone
  | PBool (b : bool)
  | PInt (n : Z)
  | PFloat (x : float)
  | PStr (s : string)
  | PList (l : list py_value)
  | PDict (d : list (string * py_value)).
#[local] Set Elimination Schemes.

(** [langchain_core.messages.BaseMessage]: a role tag and the content. *)
Record BaseMessage := {
  message_type : string;
  content : string
}.

(** [class ResumeData(BaseModel)] *)
Record ResumeData := {
  raw_text : string;
  parsed_sections : gmap string py_value;
  skills : list string;
  experience_years : Z;
  education_level : string;
  job_titles : list string;
  industries : list string;
  certifications : list string
}.

(** [class JobMatch(BaseModel)] *)
Record JobMatch := {
  title : string;
  company : string;
  location : string;
  description : string;
  required_skills : list string;
  preferred_skills : list string;
  salary_range : option string;
  experience_required : option string;
  match_score : float;
  source : string;
  job_url : option string;
  posted_date : option string
}.

(** [class ATSScore(BaseModel)] *)
Record ATSScore := {
  job_title : string;
  overall_score : Z;
  keyword_score : Z;
  format_score : Z;
  structure_score : Z;
  recommendations : list string;
  missing_keywords : list string;
  keyword_density : gmap string float
}.

(** [class ResumeEnhancement(BaseModel)] *)
Record ResumeEnhancement := {
  missing_skills_to_add : list string;
  experience_bullets_to_add : list string;
  keywords_to_incorporate : list string;
  technical_tools_to_mention : list string;
  certifications_to_pursue : list string;
  action_verbs_suggestions : list string;
  quantifiable_achievements : list string;
  section_improvements : gmap string (list string)
}.

(** [class ResumeAnalysisState(TypedDict)]: the keys in declaration order. *)
Record ResumeAnalysisState := {
  messages : list BaseMessage;
  (* input data *)
  uploaded_file_path : option string;
  target_job_title : option string;
  target_industry : option string;
  target_location : option string;
  experience_level : option string;
  (* resume intelligence agent outputs *)
  resume_data : option ResumeData;
  parsing_errors : list string;
  file_format : option string;
  parsing_confidence : option float;
  (* job market research agent outputs *)
  matching_jobs : list JobMatch;
  job_search_errors : list string;
  search_query_used : option string;
  total_jobs_found : Z;
  (* ATS scoring agent outputs *)
  ats_scores : list ATSScore;
  average_ats_score : option float;
  best_ats_match : option string;
  (* career advisory agent outputs *)
  improvement_recommendations : list string;
  resume_enhancements : option ResumeEnhancement;
  personalized_tips : list string;
  priority_improvements : list string;
  (* workflow control *)
  current_step : string;
  errors : list string;
  warnings : list string;
  is_complete : bool;
  processing_time_seconds : option float;
  (* metadata *)
  workflow_version : option string;
  timestamp_started : option string;
  timestamp_completed : option string;
  user_id : option string
}.

(** [create_initial_state]; the four targeting arguments default to [None],
    and [w] is the world the call runs in, read once by [datetime.now()]. *)
Definition create_initial_state (uploaded_file_path : string)
    (target_job_title target_industry target_location experience_level : option string)
    (w : World) : ResumeAnalysisState :=
  {| messages := [];
     uploaded_file_path := Some uploaded_file_path;
     target_job_title := target_job_title;
     target_industry := target_industry;
     target_location := target_location;
     experience_level := experience_level;
     resume_data := None;
     parsing_errors := [];
     file_format := None;
     parsing_confidence := None;
     matching_jobs := [];
     job_search_errors := [];
     search_query_used := None;
     total_jobs_found := 0;
     ats_scores := [];
     average_ats_score := None;
     best_ats_match := None;
     improvement_recommendations := [];
     resume_enhancements := None;
     personalized_tips := [];
     priority_improvements := [];
     current_step := "initialized";
     errors := [];
     warnings := [];
     is_complete := false;
     processing_time_seconds := None;
     workflow_version := Some "1.0.0";
     timestamp_started := Some (isoformat (now w));
     timestamp_completed := None;
     user_id := None |}.

(** The dictionary literal of [validate_state_transition], in source order. *)
Definition valid_transitions_items : list (string * list string) :=
  [ ("initialized",       ["parsing_resume"]);
    ("parsing_resume",    ["resume_parsed"; "error"]);
    ("resume_parsed",     ["searching_jobs"]);
    ("searching_jobs",    ["jobs_found"; "error"]);
    ("jobs_found",        ["scoring_ats"]);
    ("scoring_ats",       ["ats_scored"; "error"]);
    ("ats_scored",        ["generating_advice"]);
    ("generating_advice", ["completed"; "error"]);
    ("error",             ["retry"; "completed"]);
    ("completed",         []) ].

Definition valid_transitions : gmap string (list string) :=
  list_to_map valid_transitions_items.

(** [return to_step in valid_transitions.get(from_step, [])] *)
Definition validate_state_transition (from_step to_step : string) : bool :=
  str_in to_step (default [] (valid_transitions !! from_step)).

(** The dictionary literal of [get_state_progress_percentage]. *)
Definition step_progress_items : list (string * float) :=
  [ ("initialized",       float_lit 0);
    ("parsing_resume",    float_lit 10);
    ("resume_parsed",     float_lit 25);
    ("searching_jobs",    float_lit 40);
    ("jobs_found",        float_lit 60);
    ("scoring_ats",       float_lit 75);
    ("ats_scored",        float_lit 85);
    ("generating_advice", float_lit 95);
    ("completed",         float_lit 100);
    ("error",             float_lit 0) ].

Definition step_progress : gmap string float :=
  list_to_map step_progress_items.

(** [return step_progress.get(current_step, 0.0)] *)
Definition get_state_progress_percentage (current_step : string) : float :=
  default (float_lit 0) (step_progress !! current_step).

End ResumeAnalysisState.

(** ** The specification's side: its tables, conditions and readings *)

Module Spec.

(** The transition table of the specification, one pair per permitted edge. *)
Definition transition_table : list (string * string) :=
  [ ("initialized", "parsing_resume");
    ("parsing_resume", "resume_parsed"); ("parsing_resume", "error");
    ("resume_parsed", "searching_jobs");
    ("searching_jobs", "jobs_found"); ("searching_jobs", "error");
    ("jobs_found", "scoring_ats");
    ("scoring_ats", "ats_scored"); ("scoring_ats", "error");
    ("ats_scored", "generating_advice");
    ("generating_advice", "completed"); ("generating_advice", "error");
    ("error", "retry"); ("error", "completed") ].

(** The ten step names that head a row of the transition table. *)
Definition table_keys : list string :=
  [ "initialized"; "parsing_resume"; "resume_parsed"; "searching_jobs";
    "jobs_found"; "scoring_ats"; "ats_scored"; "generating_advice";
    "error"; "completed" ].

Definition allowed_extensions : list string := [".pdf"; ".docx"; ".txt"].

(** The three conditions on a file: it exists; its size in megabytes, the
    float [getsize / (1024 * 1024)], does not exceed the bound; the
    extension of the lowercased path is an allowed one. *)
Definition file_exists (fs : os_path.filesystem) (path : string) : Prop :=
  is_Some (fs !! path).

Definition size_within (fs : os_path.filesystem) (path : string) (max_size_mb : Z) : Prop :=
  ∃ size file_size_mb,
    fs !! path = Some size ∧
    Py.int_truediv size (1024 * 1024) = Py.Ok file_size_mb ∧
    Py.float_gt_int file_size_mb max_size_mb = false.

Definition extension_allowed (path : string) : Prop :=
  (os_path.splitext (Py.str_lower path)).2 ∈ allowed_extensions.

Definition file_is_valid (fs : os_path.filesystem) (path : string) (max_size_mb : Z) : Prop :=
  file_exists fs path ∧ size_within fs path max_size_mb ∧ extension_allowed path.

(** The size condition read as a condition on numbers: the size in bytes
    divided by [1024 * 1024] is at most the bound. *)
Definition size_at_most (fs : os_path.filesystem) (path : string) (max_size_mb : Z) : Prop :=
  ∃ size, fs !! path = Some size ∧ size ≤ max_size_mb * (1024 * 1024).

(** A valid file: it exists, its size in megabytes does not exceed the
    bound, and the extension of the lowercased path is an allowed one. *)
Definition valid_file (fs : os_path.filesystem) (path : string) (max_size_mb : Z) : Prop :=
  file_exists fs path ∧ size_at_most fs path max_size_mb ∧ extension_allowed path.

(** Reading an ISO-8601 date and time, [YYYY-MM-DDThh:mm:ss] with an
    optional fraction [.ffffff] of six digits. *)
Definition digit_value (c : ascii) : option Z :=
  let n := Z.of_nat (nat_of_ascii c) in
  if (48 <=? n) && (n <=? 57) then Some (n - 48) else None.

Fixpoint read_digits (k : nat) (acc : Z) (s : string) : option (Z * string) :=
  match k, s with
  | O, _ => Some (acc, s)
  | S k', String c s' =>
      match digit_value c with
      | Some d => read_digits k' (10 * acc + d) s'
      | None => None
      end
  | S _, EmptyString => None
  end.

Definition read_char (c : ascii) (s : string) : option string :=
  match s with
  | String x s' => if decide (x = c) then Some s' else None
  | EmptyString => None
  end.

Definition iso8601_read (s : string) : option datetime.datetime :=
  '(y, s) ← read_digits 4 0 s;
  s ← read_char "-" s;
  '(mo, s) ← read_digits 2 0 s;
  s ← read_char "-" s;
  '(d, s) ← read_digits 2 0 s;
  s ← read_char "T" s;
  '(h, s) ← read_digits 2 0 s;
  s ← read_char ":" s;
  '(mi, s) ← read_digits 2 0 s;
  s ← read_char ":" s;
  '(se, s) ← read_digits 2 0 s;
  match s with
  | EmptyString => Some (datetime.Build_datetime y mo d h mi se 0)
  | _ =>
      s ← read_char "." s;
      '(us, s) ← read_digits 6 0 s;
      match s with
      | EmptyString => Some (datetime.Build_datetime y mo d h mi se us)
      | _ => None
      end
  end.

(** Two states that agree on every key other than [timestamp_started]. *)
Definition agree_except_timestamp_started
    (s1 s2 : ResumeAnalysisState.ResumeAnalysisState) : Prop :=
  let f {A} (field : ResumeAnalysisState.ResumeAnalysisState → A) :=
    field s1 = field s2 in
  f ResumeAnalysisState.messages ∧
  f ResumeAnalysisState.uploaded_file_path ∧
  f ResumeAnalysisState.target_job_title ∧
  f ResumeAnalysisState.target_industry ∧
  f ResumeAnalysisState.target_location ∧
  f ResumeAnalysisState.experience_level ∧
  f ResumeAnalysisState.resume_data ∧
  f ResumeAnalysisState.parsing_errors ∧
  f ResumeAnalysisState.file_format ∧
  f ResumeAnalysisState.parsing_confidence ∧
  f ResumeAnalysisState.matching_jobs ∧
  f ResumeAnalysisState.job_search_errors ∧
  f ResumeAnalysisState.search_query_used ∧
  f ResumeAnalysisState.total_jobs_found ∧
  f ResumeAnalysisState.ats_scores ∧
  f ResumeAnalysisState.average_ats_score ∧
  f ResumeAnalysisState.best_ats_match ∧
  f ResumeAnalysisState.improvement_recommendations ∧
  f ResumeAnalysisState.resume_enhancements ∧
  f ResumeAnalysisState.personalized_tips ∧
  f ResumeAnalysisState.priority_improvements ∧
  f ResumeAnalysisState.current_step ∧
  f ResumeAnalysisState.errors ∧
  f ResumeAnalysisState.warnings ∧
  f ResumeAnalysisState.is_complete ∧
  f ResumeAnalysisState.processing_time_seconds ∧
  f ResumeAnalysisState.workflow_version ∧
  f ResumeAnalysisState.timestamp_completed ∧
  f ResumeAnalysisState.user_id.

(** The seven states the specification calls productive (processing):
    every non-terminal state other than [initialized] and [error]. *)
Definition productive_states : list string :=
  [ "parsing_resume"; "resume_parsed"; "searching_jobs"; "jobs_found";
    "scoring_ats"; "ats_scored"; "generating_advice" ].

(** The progress table of the specification, in percent. *)
Definition progress_table : list (string * Z) :=
  [ ("initialized", 0); ("parsing_resume", 10); ("resume_parsed", 25);
    ("searching_jobs", 40); ("jobs_found", 60); ("scoring_ats", 75);
    ("ats_scored", 85); ("generating_advice", 95); ("completed", 100);
    ("error", 0) ].

(** The canonical success path. *)
Definition success_path : list string :=
  [ "initialized"; "parsing_resume"; "resume_parsed"; "searching_jobs";
    "jobs_found"; "scoring_ats"; "ats_scored"; "generating_advice";
    "completed" ].

(** A chain of steps in which each one is a valid transition to the next. *)
Fixpoint valid_path (l : list string) : bool :=
  match l with
  | a :: (b :: _) as l' =>
      ResumeAnalysisState.validate_state_transition a b && valid_path l'
  | _ => true
  end.

(** How far along the workflow a step is: a number that grows along every
    edge of the transition table. *)
Definition step_rank_items : list (string * nat) :=
  [ ("initialized", 0%nat); ("parsing_resume", 1%nat); ("resume_parsed", 2%nat);
    ("searching_jobs", 3%nat); ("jobs_found", 4%nat); ("scoring_ats", 5%nat);
    ("ats_scored", 6%nat); ("generating_advice", 7%nat); ("error", 8%nat);
    ("retry", 9%nat); ("completed", 9%nat) ].

Definition step_rank (s : string) : nat :=
  default 0%nat ((list_to_map step_rank_items : gmap string nat) !! s).

(** A string made of whitespace only. *)
Definition all_space (s : Py.text) : bool := forallb Py.isspace s.


(** Whether [context.get(key)] is true: the key is there and its value is
    true. *)
Definition field_present {V : Type} (truthy : V → bool)
    (context : gmap string V) (key : string) : Prop :=
  ∃ v, context !! key = Some v ∧ truthy v = true.

(** The four keys [format_context_for_llm] reads. *)
Definition context_keys : list string :=
  [ "target_job_title"; "target_industry"; "experience_level"; "target_location" ].

End Spec.

(** * Proofs *)

(** ** Rounding: no overflow on 64-bit operands, exact below [2^53] *)

Section floats.
Import Py.

Lemma digits2_pos_size p : digits2_pos p = Pos.size p.
Proof. induction p; simpl; congruence. Qed.

Lemma Zdigits2_nonneg x : 0 ≤ Zdigits2 x.
Proof. destruct x; simpl; lia. Qed.

Lemma Zdigits2_bound x k : 0 ≤ k → 0 ≤ x < 2 ^ k → Zdigits2 x ≤ k.
Proof.
  intros Hk [H0 Hx]. destruct x as [|p|p]; simpl; [lia| |lia].
  rewrite digits2_pos_size.
  pose proof (Pos.size_le p) as Hle.
  assert (2 ^ Z.pos (Pos.size p) ≤ 2 * Z.pos p) as H.
  { rewrite <- Pos2Z.inj_pow. change (2 * Z.pos p) with (Z.pos p~0). lia. }
  apply Z.lt_succ_r. apply (Z.pow_lt_mono_r_iff 2); [lia|lia|].
  rewrite Z.pow_succ_r by lia. lia.
Qed.

(** Shifting right never grows a non-negative mantissa. *)
Lemma shr_1_bound mrs : 0 ≤ shr_m mrs → 0 ≤ shr_m (shr_1 mrs) ≤ shr_m mrs.
Proof. destruct mrs as [[|[p|p|]|p] r s]; simpl; lia. Qed.

Lemma iter_pos_shr_1_bound p : ∀ mrs,
  0 ≤ shr_m mrs → 0 ≤ shr_m (SpecFloat.iter_pos shr_1 p mrs) ≤ shr_m mrs.
Proof.
  induction p as [p IH|p IH|]; intros mrs H; simpl.
  - pose proof (shr_1_bound mrs H).
    pose proof (IH (shr_1 mrs) ltac:(lia)).
    pose proof (IH (SpecFloat.iter_pos shr_1 p (shr_1 mrs)) ltac:(lia)). lia.
  - pose proof (IH mrs H).
    pose proof (IH (SpecFloat.iter_pos shr_1 p mrs) ltac:(lia)). lia.
  - by apply shr_1_bound.
Qed.

Lemma shr_record_of_loc_m m l : shr_m (shr_record_of_loc m l) = m.
Proof. by destruct l as [|[]]. Qed.

(** The mantissa and the exponent after one alignment step. *)
Lemma shr_fexp_bound m e l mrs e' :
  0 ≤ m → shr_fexp prec emax m e l = (mrs, e') →
  0 ≤ shr_m mrs ≤ m ∧ e' = Z.max e (fexp prec emax (Zdigits2 m + e)).
Proof.
  intros Hm. unfold shr_fexp, shr.
  destruct (fexp prec emax (Zdigits2 m + e) - e) as [|n|n] eqn:En;
    intros [= <- <-].
  - rewrite shr_record_of_loc_m. lia.
  - pose proof (iter_pos_shr_1_bound n (shr_record_of_loc m l)) as H.
    rewrite shr_record_of_loc_m in H. lia.
  - rewrite shr_record_of_loc_m. lia.
Qed.

Lemma round_nearest_even_bound m l :
  0 ≤ m → 0 ≤ round_nearest_even m l ≤ m + 1.
Proof.
  intros H. destruct l as [|[]]; simpl; try lia. destruct (Z.even m); lia.
Qed.

(** Rounding a mantissa below [2^200] at an exponent within [±200] stays
    far from the overflow threshold [2^1024]. *)
Lemma binary_round_aux_finite s m e l :
  0 ≤ m < 2 ^ 200 → -200 ≤ e ≤ 200 →
  float_is_finite (binary_round_aux prec emax s m e l) = true.
Proof.
  intros Hm He. unfold binary_round_aux.
  destruct (shr_fexp prec emax m e l) as [mrs' e'] eqn:E1.
  apply shr_fexp_bound in E1 as [Hm' He']; [|lia].
  pose proof (round_nearest_even_bound (shr_m mrs') (loc_of_shr_record mrs')
                ltac:(lia)) as Hr.
  destruct (shr_fexp prec emax _ e' loc_Exact) as [mrs'' e''] eqn:E2.
  apply shr_fexp_bound in E2 as [Hm'' He'']; [|lia].
  pose proof (Zdigits2_bound m 200 ltac:(lia) ltac:(lia)).
  pose proof (Zdigits2_nonneg m).
  assert (2 ^ 200 < 2 ^ 201) by (apply Z.pow_lt_mono_r; lia).
  pose proof (Zdigits2_bound
                (round_nearest_even (shr_m mrs') (loc_of_shr_record mrs')) 201
                ltac:(lia) ltac:(lia)).
  pose proof (Zdigits2_nonneg
                (round_nearest_even (shr_m mrs') (loc_of_shr_record mrs'))).
  unfold fexp, SpecFloat.emin, prec, emax in *.
  destruct (shr_m mrs'') as [|p|p] eqn:Em; [done| |lia].
  destruct (e'' <=? 1024 - 53) eqn:Ele; [done|]. lia.
Qed.

(** The scaled quotient that the division hands to the rounding step. *)
Lemma SFdiv_core_binary_bound a b q e l :
  0 ≤ a < 2 ^ 64 → 0 < b < 2 ^ 64 →
  SFdiv_core_binary prec emax a 0 b 0 = (q, e, l) →
  0 ≤ q < 2 ^ 200 ∧ -200 ≤ e ≤ 200.
Proof.
  intros Ha Hb. unfold SFdiv_core_binary.
  pose proof (Zdigits2_nonneg a). pose proof (Zdigits2_nonneg b).
  pose proof (Zdigits2_bound a 64 ltac:(lia) Ha).
  pose proof (Zdigits2_bound b 64 ltac:(lia) ltac:(lia)).
  set (e' := Z.min _ _).
  assert (-117 ≤ e' ≤ 0) as He'.
  { subst e'. unfold fexp, SpecFloat.emin, prec, emax. lia. }
  set (m' := match 0 - 0 - e' with Z.pos _ => _ | _ => _ end).
  assert (0 ≤ m' < 2 ^ 181) as Hm'.
  { subst m'. destruct (0 - 0 - e') as [|s|s] eqn:Es.
    - split; [lia|]. eapply Z.lt_trans; [apply Ha|]. by apply Z.pow_lt_mono_r.
    - rewrite Z.shiftl_mul_pow2 by lia.
      assert (0 < 2 ^ Z.pos s ≤ 2 ^ 117) as Hs.
      { split; [by apply Z.pow_pos_nonneg|apply Z.pow_le_mono_r; lia]. }
      change (2 ^ 181) with (2 ^ 64 * 2 ^ 117). nia.
    - lia. }
  pose proof (Z.div_eucl_eq m' b ltac:(lia)) as Hdiv.
  pose proof (Z.mod_pos_bound m' b ltac:(lia)) as Hmod.
  unfold Z.modulo in Hmod.
  destruct (Z.div_eucl m' b) as [q' r']. intros [= <- <- <-].
  assert (2 ^ 181 < 2 ^ 200) by (by apply Z.pow_lt_mono_r).
  split; [nia|lia].
Qed.

(** [a / b] returns a finite float, without [OverflowError] or
    [ZeroDivisionError], for a 64-bit [a >= 0] and a 64-bit [b > 0]. *)
Lemma int_truediv_finite a b :
  0 ≤ a < 2 ^ 64 → 0 < b < 2 ^ 64 →
  ∃ x, int_truediv a b = Ok x ∧ float_is_finite x = true.
Proof.
  intros Ha Hb. unfold int_truediv.
  destruct (b =? 0) eqn:Eb; [lia|].
  destruct (a =? 0) eqn:Ea; [by eexists|].
  rewrite (Z.abs_eq a), (Z.abs_eq b) by lia.
  destruct (SFdiv_core_binary prec emax a 0 b 0) as [[q e] l] eqn:E.
  apply SFdiv_core_binary_bound in E as [Hq He]; [|done..].
  pose proof (binary_round_aux_finite (xorb (a <? 0) (b <? 0)) q e l Hq He)
    as Hfin.
  destruct (binary_round_aux _ _ _ _ _ _); try done; by eexists.
Qed.

(** [Zdigits2 x] is the bit length of [x]. *)
Lemma Zdigits2_spec x : 0 < x → 2 ^ (Zdigits2 x - 1) ≤ x < 2 ^ Zdigits2 x.
Proof.
  intros Hx. destruct x as [|p|p]; [lia| |lia]. simpl.
  rewrite digits2_pos_size.
  pose proof (Pos.size_le p) as Hle. pose proof (Pos.size_gt p) as Hgt.
  assert (2 ^ Z.pos (Pos.size p) ≤ 2 * Z.pos p) as H1.
  { rewrite <- Pos2Z.inj_pow. change (2 * Z.pos p) with (Z.pos p~0). lia. }
  assert (Z.pos p < 2 ^ Z.pos (Pos.size p)) as H2.
  { rewrite <- Pos2Z.inj_pow. lia. }
  split; [|done].
  replace (Z.pos (Pos.size p)) with (Z.succ (Z.pos (Pos.size p) - 1)) in H1 by lia.
  rewrite Z.pow_succ_r in H1 by lia. lia.
Qed.

Lemma Zdigits2_eq x k : 0 < k → 2 ^ (k - 1) ≤ x < 2 ^ k → Zdigits2 x = k.
Proof.
  intros Hk [Hlo Hhi].
  assert (0 < x) as Hx.
  { pose proof (Z.pow_pos_nonneg 2 (k - 1) ltac:(lia) ltac:(lia)). lia. }
  pose proof (Zdigits2_spec x Hx) as [Hlo' Hhi'].
  pose proof (Zdigits2_nonneg x).
  assert (Zdigits2 x - 1 < k) as H1.
  { apply (Z.pow_lt_mono_r_iff 2); [lia|lia|lia]. }
  assert (k - 1 < Zdigits2 x) as H2.
  { apply (Z.pow_lt_mono_r_iff 2); [lia|lia|lia]. }
  lia.
Qed.

(** Below [2^53] bytes the quotient by [2^20] is exact. *)
Lemma int_truediv_mb_exact a :
  0 < a < 2 ^ 53 →
  ∃ p, int_truediv a (1024 * 1024) = Ok (S754_finite false p (Zdigits2 a - 73)) ∧
       Z.pos p = a * 2 ^ (53 - Zdigits2 a).
Proof.
  intros Ha.
  pose proof (Zdigits2_spec a ltac:(lia)) as [Hlo Hhi].
  pose proof (Zdigits2_bound a 53 ltac:(lia) ltac:(lia)) as Hd.
  assert (0 < Zdigits2 a) as Hd0.
  { destruct a; simpl; lia. }
  set (d := Zdigits2 a) in *.
  set (m := a * 2 ^ (53 - d)).
  assert (2 ^ 52 ≤ m < 2 ^ 53) as Hm.
  { subst m.
    assert (2 ^ 52 = 2 ^ (d - 1) * 2 ^ (53 - d)) as ->
      by (rewrite <- Z.pow_add_r by lia; f_equal; lia).
    assert (2 ^ 53 = 2 ^ d * 2 ^ (53 - d)) as ->
      by (rewrite <- Z.pow_add_r by lia; f_equal; lia).
    pose proof (Z.pow_pos_nonneg 2 (53 - d) ltac:(lia) ltac:(lia)). nia. }
  unfold int_truediv.
  change (1024 * 1024 =? 0) with false. cbv iota.
  destruct (a =? 0) eqn:Ea; [lia|].
  rewrite (Z.abs_eq a) by lia.
  change (Z.abs (1024 * 1024)) with 1048576.
  replace (a <? 0) with false by lia.
  change (1024 * 1024 <? 0) with false. cbn [xorb].
  assert (SFdiv_core_binary prec emax a 0 1048576 0 = (2 * m, d - 74, loc_Exact)) as ->.
  { unfold SFdiv_core_binary. fold d.
    change (Zdigits2 1048576) with 21.
    replace (Z.min (fexp prec emax (d + 0 - (21 + 0))) (0 - 0)) with (d - 74)
      by (unfold fexp, SpecFloat.emin, prec, emax; lia).
    replace (0 - 0 - (d - 74)) with (74 - d) by lia.
    destruct (74 - d) as [|s|s] eqn:Es; [lia| |lia].
    rewrite Z.shiftl_mul_pow2 by lia. rewrite <- Es.
    replace (a * 2 ^ (74 - d)) with (2 * m * 1048576).
    2:{ subst m. replace (74 - d) with ((53 - d) + 21) by lia.
        rewrite Z.pow_add_r by lia. change (2 ^ 21) with 2097152. lia. }
    pose proof (Z.div_eucl_eq (2 * m * 1048576) 1048576 ltac:(lia)) as Hdiv.
    pose proof (Z.mod_pos_bound (2 * m * 1048576) 1048576 ltac:(lia)) as Hmod.
    unfold Z.modulo in Hmod.
    destruct (Z.div_eucl (2 * m * 1048576) 1048576) as [q r].
    assert (r = 0) as -> by lia. assert (q = 2 * m) as -> by lia.
    reflexivity. }
  assert (2 ^ 53 = 2 * 2 ^ 52) as H53 by reflexivity.
  assert (2 ^ 54 = 2 * 2 ^ 53) as H54 by reflexivity.
  unfold binary_round_aux, shr_fexp.
  rewrite (Zdigits2_eq (2 * m) 54) by lia.
  replace (fexp prec emax (54 + (d - 74)) - (d - 74)) with 1
    by (unfold fexp, SpecFloat.emin, prec, emax; lia).
  destruct m as [|pm|pm]; [lia| |lia].
  change (2 * Z.pos pm) with (Z.pos pm~0).
  cbn [shr shr_record_of_loc SpecFloat.iter_pos shr_1 orb
       loc_of_shr_record shr_m round_nearest_even].
  rewrite (Zdigits2_eq (Z.pos pm) 53) by lia.
  replace (fexp prec emax (53 + (d - 74 + 1)) - (d - 74 + 1)) with 0
    by (unfold fexp, SpecFloat.emin, prec, emax; lia).
  cbn [shr shr_record_of_loc shr_m].
  replace (d - 74 + 1 <=? emax - prec) with true by (unfold emax, prec; lia).
  exists pm. split; [|done]. do 2 f_equal. lia.
Qed.

Lemma shr_1_div2 mrs : 0 ≤ shr_m mrs → shr_m (shr_1 mrs) = shr_m mrs / 2.
Proof.
  destruct mrs as [[|[p|p|]|p] r s]; simpl; intros H;
    try reflexivity; try lia.
  - change (Z.pos p~1) with (2 * Z.pos p + 1).
    rewrite Z.mul_comm, Z.div_add_l by lia. reflexivity.
  - change (Z.pos p~0) with (2 * Z.pos p).
    rewrite Z.mul_comm, Z.div_mul by lia. reflexivity.
Qed.

(** Rounding a 54-bit mantissa: one bit is dropped, and a second one when
    the rounded mantissa reaches [2^53]. *)
Lemma binary_round_aux_54 s m e l :
  2 ^ 53 ≤ m < 2 ^ 54 → -100 ≤ e ≤ 100 →
  ∃ p e', binary_round_aux prec emax s m e l = S754_finite s p e' ∧
          2 ^ 52 ≤ Z.pos p ∧ e + 1 ≤ e' ≤ e + 2.
Proof.
  intros Hm He.
  assert (2 ^ 53 = 2 * 2 ^ 52) as H53 by reflexivity.
  assert (2 ^ 54 = 2 * 2 ^ 53) as H54 by reflexivity.
  unfold binary_round_aux, shr_fexp.
  rewrite (Zdigits2_eq m 54) by lia.
  replace (fexp prec emax (54 + e) - e) with 1
    by (unfold fexp, SpecFloat.emin, prec, emax; lia).
  cbn [shr SpecFloat.iter_pos].
  set (mrs := shr_1 (shr_record_of_loc m l)).
  assert (shr_m mrs = m / 2) as Hm1.
  { subst mrs. rewrite shr_1_div2; rewrite shr_record_of_loc_m; [done|lia]. }
  assert (2 ^ 52 ≤ shr_m mrs < 2 ^ 53) as Hm1b.
  { rewrite Hm1. pose proof (Z.div_mod m 2 ltac:(lia)).
    pose proof (Z.mod_pos_bound m 2 ltac:(lia)). lia. }
  pose proof (round_nearest_even_bound (shr_m mrs) (loc_of_shr_record mrs)
                ltac:(lia)) as Hr.
  assert (shr_m mrs ≤ round_nearest_even (shr_m mrs) (loc_of_shr_record mrs)) as Hr'.
  { destruct (loc_of_shr_record mrs) as [|[]]; simpl; try lia.
    destruct (Z.even (shr_m mrs)); lia. }
  set (m2 := round_nearest_even _ _) in *.
  destruct (decide (m2 < 2 ^ 53)) as [Hlt|Hge].
  - rewrite (Zdigits2_eq m2 53) by lia.
    replace (fexp prec emax (53 + (e + 1)) - (e + 1)) with 0
      by (unfold fexp, SpecFloat.emin, prec, emax; lia).
    cbn [shr shr_record_of_loc shr_m].
    destruct m2 as [|p2|p2]; [lia| |lia].
    replace (e + 1 <=? emax - prec) with true by (unfold emax, prec; lia).
    exists p2, (e + 1). split; [done|lia].
  - assert (m2 = 2 ^ 53) as -> by lia.
    change (Zdigits2 (2 ^ 53)) with 54.
    replace (fexp prec emax (54 + (e + 1)) - (e + 1)) with 1
      by (unfold fexp, SpecFloat.emin, prec, emax; lia).
    cbn [shr]. change (shr_m (SpecFloat.iter_pos shr_1 1 (shr_record_of_loc (2 ^ 53) loc_Exact)))
      with (2 ^ 52).
    change (2 ^ 52) with (Z.pos (2 ^ 52)%positive) at 1. cbv iota.
    replace (e + 1 + 1 <=? emax - prec) with true by (unfold emax, prec; lia).
    exists (2 ^ 52)%positive, (e + 1 + 1). split; [done|].
    change (Z.pos (2 ^ 52)%positive) with (2 ^ 52). lia.
Qed.

(** From [2^53] bytes on the quotient is rounded, and it is at least [2^33]. *)
Lemma int_truediv_mb_large a :
  2 ^ 53 ≤ a < 2 ^ 63 →
  ∃ p e, int_truediv a (1024 * 1024) = Ok (S754_finite false p e) ∧
         2 ^ 52 ≤ Z.pos p ∧ -19 ≤ e ≤ 0.
Proof.
  intros Ha.
  assert (0 < 2 ^ 53) by done.
  pose proof (Zdigits2_spec a ltac:(lia)) as [Hlo Hhi].
  pose proof (Zdigits2_bound a 63 ltac:(lia) ltac:(lia)) as Hd.
  assert (53 < Zdigits2 a) as Hd0.
  { apply (Z.pow_lt_mono_r_iff 2); [lia|apply Zdigits2_nonneg|lia]. }
  set (d := Zdigits2 a) in *.
  unfold int_truediv.
  change (1024 * 1024 =? 0) with false. cbv iota.
  destruct (a =? 0) eqn:Ea; [lia|].
  rewrite (Z.abs_eq a) by lia.
  change (Z.abs (1024 * 1024)) with 1048576.
  replace (a <? 0) with false by lia.
  change (1024 * 1024 <? 0) with false. cbn [xorb].
  destruct (SFdiv_core_binary prec emax a 0 1048576 0) as [[q e] l] eqn:E.
  assert (2 ^ 53 ≤ q < 2 ^ 54 ∧ e = d - 74) as [Hq ->].
  { revert E. unfold SFdiv_core_binary. fold d.
    change (Zdigits2 1048576) with 21.
    replace (Z.min (fexp prec emax (d + 0 - (21 + 0))) (0 - 0)) with (d - 74)
      by (unfold fexp, SpecFloat.emin, prec, emax; lia).
    replace (0 - 0 - (d - 74)) with (74 - d) by lia.
    destruct (74 - d) as [|s|s] eqn:Es; [lia| |lia].
    rewrite Z.shiftl_mul_pow2 by lia. rewrite <- Es.
    assert (2 ^ 73 ≤ a * 2 ^ (74 - d) < 2 ^ 74) as Hm'.
    { assert (2 ^ 73 = 2 ^ (d - 1) * 2 ^ (74 - d)) as ->
        by (rewrite <- Z.pow_add_r by lia; f_equal; lia).
      assert (2 ^ 74 = 2 ^ d * 2 ^ (74 - d)) as ->
        by (rewrite <- Z.pow_add_r by lia; f_equal; lia).
      pose proof (Z.pow_pos_nonneg 2 (74 - d) ltac:(lia) ltac:(lia)). nia. }
    pose proof (Z.div_eucl_eq (a * 2 ^ (74 - d)) 1048576 ltac:(lia)) as Hdiv.
    pose proof (Z.mod_pos_bound (a * 2 ^ (74 - d)) 1048576 ltac:(lia)) as Hmod.
    unfold Z.modulo in Hmod.
    destruct (Z.div_eucl (a * 2 ^ (74 - d)) 1048576) as [q' r'].
    intros [= <- <- <-].
    change (2 ^ 73) with (2 ^ 53 * 1048576) in Hm'.
    change (2 ^ 74) with (2 ^ 54 * 1048576) in Hm'.
    split; [lia|done]. }
  destruct (binary_round_aux_54 false q (d - 74) l Hq ltac:(lia))
    as (p & e' & -> & Hp & He').
  exists p, e'. split; [done|]. lia.
Qed.

(** The float test [size / (1024 * 1024) > max_size_mb] is the exact test
    [size > max_size_mb * 2^20] for sizes below [2^53] bytes, and for every
    63-bit size when the bound is below [2^33] megabytes. *)
Lemma size_check_exact a max_size_mb :
  0 ≤ a < 2 ^ 63 → a < 2 ^ 53 ∨ max_size_mb < 2 ^ 33 →
  ∃ mb, int_truediv a (1024 * 1024) = Ok mb ∧
        (float_gt_int mb max_size_mb = true ↔ max_size_mb * 1048576 < a).
Proof.
  intros Ha Hor.
  destruct (decide (a = 0)) as [->|Hne].
  { exists (S754_zero false). split; [done|]. simpl. lia. }
  destruct (decide (a < 2 ^ 53)) as [Hsmall|Hlarge].
  - destruct (int_truediv_mb_exact a ltac:(lia)) as (p & -> & Hp).
    eexists; split; [done|].
    pose proof (Zdigits2_bound a 53 ltac:(lia) ltac:(lia)) as Hd.
    assert (0 < Zdigits2 a) as Hd0 by (destruct a; simpl; lia).
    unfold float_gt_int.
    destruct (0 <=? Zdigits2 a - 73) eqn:E; [lia|].
    rewrite Hp.
    replace (- (Zdigits2 a - 73)) with (20 + (53 - Zdigits2 a)) by lia.
    rewrite Z.pow_add_r by lia. change (2 ^ 20) with 1048576.
    pose proof (Z.pow_pos_nonneg 2 (53 - Zdigits2 a) ltac:(lia) ltac:(lia)).
    rewrite Z.ltb_lt. nia.
  - destruct Hor as [?|Hmax]; [lia|].
    destruct (int_truediv_mb_large a ltac:(lia)) as (p & e & -> & Hp & He).
    eexists; split; [done|].
    unfold float_gt_int.
    assert (max_size_mb * 1048576 < a) as Hlt.
    { change (2 ^ 53) with (2 ^ 33 * 1048576) in Hlarge. lia. }
    assert (max_size_mb * 2 ^ (- e) < Z.pos p) as Hlt'.
    { assert (0 < 2 ^ (- e) ≤ 2 ^ 19) as Hpow.
      { split; [apply Z.pow_pos_nonneg; lia|apply Z.pow_le_mono_r; lia]. }
      change (2 ^ 52) with (2 ^ 33 * 2 ^ 19) in Hp. nia. }
    destruct (0 <=? e) eqn:E.
    + assert (e = 0) as -> by lia. change (2 ^ (- 0)) with 1 in Hlt'.
      change (2 ^ 0) with 1. rewrite Z.ltb_lt. split; [done|lia].
    + rewrite Z.ltb_lt. done.
Qed.

End floats.

(** ** Zero-padded decimals and the ISO-8601 reading of [isoformat] *)

Section decimal.
Import Py datetime Spec.

Lemma str_app_cons c s t : String c s +:+ t = String c (s +:+ t).
Proof. reflexivity. Qed.

Lemma str_app_empty t : "" +:+ t = t.
Proof. reflexivity. Qed.

Lemma digit_value_char d : 0 ≤ d < 10 → digit_value (digit_char d) = Some d.
Proof.
  intros H. unfold digit_value, digit_char.
  rewrite nat_ascii_embedding by lia.
  replace (Z.of_nat (48 + Z.to_nat d)) with (48 + d) by lia.
  destruct (48 <=? 48 + d) eqn:E1; [|lia].
  destruct (48 + d <=? 57) eqn:E2; [|lia]. simpl. f_equal. lia.
Qed.

Lemma read_digits_msb w : ∀ n acc rest, 0 ≤ n →
  read_digits w acc (digits_msb w n +:+ rest)
  = Some (acc * 10 ^ Z.of_nat w + n mod 10 ^ Z.of_nat w, rest).
Proof.
  induction w as [|w IH]; intros n acc rest Hn; simpl digits_msb.
  - rewrite str_app_empty. simpl. rewrite Z.mod_1_r. do 2 f_equal. lia.
  - rewrite str_app_cons. cbn [read_digits].
    rewrite digit_value_char by (apply Z.mod_pos_bound; lia).
    rewrite IH by done. do 2 f_equal.
    rewrite Nat2Z.inj_succ, Z.pow_succ_r by lia.
    rewrite (Z.mul_comm 10 (10 ^ Z.of_nat w)).
    rewrite (Z.rem_mul_r n (10 ^ Z.of_nat w) 10) by lia. lia.
Qed.

Lemma digits_msb_snoc k : ∀ n acc,
  digits_msb k (n / 10) +:+ String (digit_char (n mod 10)) acc
  = digits_msb (S k) n +:+ acc.
Proof.
  induction k as [|k IH]; intros n acc.
  - simpl digits_msb. rewrite !str_app_cons, !str_app_empty. by rewrite Z.div_1_r.
  - change (digits_msb (S k) (n / 10)) with
      (String (digit_char (n / 10 / 10 ^ Z.of_nat k mod 10)) (digits_msb k (n / 10))).
    rewrite str_app_cons, IH.
    change (digits_msb (S (S k)) n) with
      (String (digit_char (n / 10 ^ Z.of_nat (S k) mod 10)) (digits_msb (S k) n)).
    rewrite (str_app_cons _ (digits_msb (S k) n)). do 3 f_equal.
    rewrite Nat2Z.inj_succ, Z.pow_succ_r by lia.
    rewrite Z.div_div by lia. done.
Qed.

Lemma decimal_go_msb fuel : ∀ n acc, 0 ≤ n → Z.log2 n < Z.of_nat fuel →
  ∃ k, (0 < k)%nat ∧ n < 10 ^ Z.of_nat k ∧
       (k = 1%nat ∨ 10 ^ (Z.of_nat k - 1) ≤ n) ∧
       decimal_go fuel n acc = digits_msb k n +:+ acc.
Proof.
  induction fuel as [|fuel IH]; intros n acc Hn Hlog.
  - pose proof (Z.log2_nonneg n). lia.
  - cbn [decimal_go]. destruct (n / 10 =? 0) eqn:E.
    + exists 1%nat. apply Z.eqb_eq in E.
      split; [lia|]. split; [|split; [by left|]].
      * change (10 ^ Z.of_nat 1) with 10.
        pose proof (Z.div_mod n 10 ltac:(lia)). pose proof (Z.mod_pos_bound n 10 ltac:(lia)). lia.
      * simpl digits_msb. rewrite str_app_cons, str_app_empty. by rewrite Z.div_1_r.
    + apply Z.eqb_neq in E.
      assert (10 ≤ n) as Hn10.
      { destruct (Z.lt_ge_cases n 10) as [Hlt|]; [|done].
        rewrite Z.div_small in E by lia. done. }
      assert (Z.log2 (n / 10) < Z.of_nat fuel) as Hlog'.
      { assert (0 < n / 10) by (apply Z.div_str_pos; lia).
        apply Z.log2_lt_pow2; [done|].
        apply Z.log2_lt_pow2 in Hlog; [|lia].
        rewrite Nat2Z.inj_succ, Z.pow_succ_r in Hlog by lia.
        pose proof (Z.div_mod n 10 ltac:(lia)).
        pose proof (Z.mod_pos_bound n 10 ltac:(lia)). lia. }
      destruct (IH (n / 10) (String (digit_char (n mod 10)) acc)
                  ltac:(apply Z.div_pos; lia) Hlog') as (k & Hk & Hlt & Hge & ->).
      exists (S k). rewrite digits_msb_snoc.
      rewrite Nat2Z.inj_succ, Z.pow_succ_r by lia.
      pose proof (Z.div_mod n 10 ltac:(lia)). pose proof (Z.mod_pos_bound n 10 ltac:(lia)).
      split; [lia|]. split; [lia|]. split; [|done]. right.
      replace (Z.succ (Z.of_nat k) - 1) with (Z.of_nat k) by lia.
      destruct Hge as [->|Hge].
      * change (10 ^ Z.of_nat 1) with 10. lia.
      * replace (Z.of_nat k) with (Z.succ (Z.of_nat k - 1)) by lia.
        rewrite Z.pow_succ_r by lia. lia.
Qed.

Lemma str_app_nil_r s : s +:+ "" = s.
Proof. induction s as [|c s IH]; [done|]. by rewrite str_app_cons, IH. Qed.

Lemma str_app_assoc s t u : (s +:+ t) +:+ u = s +:+ (t +:+ u).
Proof. induction s as [|c s IH]; [done|]. by rewrite !str_app_cons, IH. Qed.

Lemma digits_msb_length k n : String.length (digits_msb k n) = k.
Proof. induction k as [|k IH]; simpl; congruence. Qed.

Lemma digits_msb_zeros w k n :
  0 ≤ n < 10 ^ Z.of_nat k → (k ≤ w)%nat →
  digits_msb w n = zeros (w - k) +:+ digits_msb k n.
Proof.
  intros Hn. induction w as [|w IH]; intros Hk.
  - by replace k with 0%nat by lia.
  - destruct (decide (k = S w)) as [->|Hne].
    + by rewrite Nat.sub_diag.
    + replace (S w - k)%nat with (S (w - k)) by lia.
      simpl zeros. rewrite str_app_cons, <- IH by lia.
      simpl digits_msb. do 2 f_equal.
      assert (10 ^ Z.of_nat k ≤ 10 ^ Z.of_nat w) by (apply Z.pow_le_mono_r; lia).
      rewrite Z.div_small by lia. done.
Qed.

Lemma format_0d_msb w n :
  (0 < w)%nat → 0 ≤ n < 10 ^ Z.of_nat w → format_0d w n = digits_msb w n.
Proof.
  intros Hw Hn. unfold format_0d, decimal.
  destruct (n <? 0) eqn:E; [lia|].
  destruct (decimal_go_msb (S (Z.to_nat (Z.log2 n))) n "" ltac:(lia))
    as (k & Hk & Hlt & Hge & ->).
  { pose proof (Z.log2_nonneg n). lia. }
  rewrite str_app_nil_r, digits_msb_length.
  symmetry. apply digits_msb_zeros; [lia|].
  destruct Hge as [->|Hge].
  - lia.
  - assert (10 ^ (Z.of_nat k - 1) < 10 ^ Z.of_nat w) as H by lia.
    apply Z.pow_lt_mono_r_iff in H; lia.
Qed.

Lemma read_char_cons c s : read_char c (String c s) = Some s.
Proof. simpl. by rewrite decide_True. Qed.

Lemma read_char_app c s : read_char c (String c "" +:+ s) = Some s.
Proof. rewrite str_app_cons, str_app_empty. simpl. by rewrite decide_True. Qed.

Lemma read_format_0d w n rest :
  (0 < w)%nat → 0 ≤ n < 10 ^ Z.of_nat w →
  read_digits w 0 (format_0d w n +:+ rest) = Some (n, rest).
Proof.
  intros Hw Hn. rewrite format_0d_msb, read_digits_msb by lia.
  rewrite Z.mod_small by lia. done.
Qed.

Example isoformat_microseconds :
  isoformat (Build_datetime 2024 3 9 7 5 0 1234) = "2024-03-09T07:05:00.001234".
Proof. vm_compute. reflexivity. Qed.

Example isoformat_whole_second :
  isoformat (Build_datetime 2024 3 9 7 5 0 0) = "2024-03-09T07:05:00".
Proof. vm_compute. reflexivity. Qed.

(** One field, and one separator, of the reading. *)
Ltac read_field :=
  rewrite read_format_0d by (simpl; lia); cbn [mbind option_bind].
Ltac read_sep :=
  rewrite read_char_app; cbn [mbind option_bind].

(** Reading back what [isoformat] writes gives the [datetime] it was
    written from. *)
Lemma iso8601_read_isoformat d :
  datetime_wf d → iso8601_read (isoformat d) = Some d.
Proof.
  destruct d as [y mo dd h mi se us].
  intros (Hy & Hmo & Hd & Hh & Hmi & Hse & Hus); simpl in *.
  unfold isoformat, format_time, iso8601_read.
  cbn [year month day hour minute second microsecond].
  destruct (us =? 0) eqn:Eus; rewrite ?str_app_assoc.
  - do 5 (read_field; read_sep).
    rewrite <- (str_app_nil_r (format_0d 2 se)). read_field.
    do 2 f_equal. lia.
  - do 5 (read_field; read_sep). read_field.
    rewrite str_app_cons, str_app_empty. cbv iota.
    rewrite read_char_cons. cbn [mbind option_bind].
    rewrite <- (str_app_nil_r (format_0d 6 us)). by read_field.
Qed.

End decimal.

(** A membership between closed terms is settled by evaluation. *)
Ltac by_eval := apply (bool_decide_unpack _); vm_compute; exact I.

(** Case analysis on an edge of the specification's table. *)
Ltac table_cases H :=
  unfold Spec.transition_table in H;
  repeat (apply elem_of_cons in H as [H|H]; [simplify_eq|]);
  try (by apply elem_of_nil in H).

Section transitions.
Import Py ResumeAnalysisState.

Lemma str_in_elem_of x l : str_in x l = true ↔ x ∈ l.
Proof.
  induction l as [|y l IH]; simpl.
  - split; [discriminate | by intros ?%elem_of_nil].
  - rewrite elem_of_cons, <- IH. destruct (decide (x = y)) as [->|Hne].
    + split; [by left | done].
    + split; [by right | by intros [?|?]].
Qed.

Lemma str_in_false x l : str_in x l = false ↔ x ∉ l.
Proof.
  rewrite <- str_in_elem_of. by destruct (str_in x l).
Qed.

Lemma valid_transitions_lookup from_step l :
  valid_transitions !! from_step = Some l ↔
  (from_step, l) ∈ valid_transitions_items.
Proof. symmetry. apply elem_of_list_to_map. by_eval. Qed.

Lemma validate_state_transition_elem from_step to_step :
  validate_state_transition from_step to_step = true ↔
  ∃ l, (from_step, l) ∈ valid_transitions_items ∧ to_step ∈ l.
Proof.
  unfold validate_state_transition. rewrite str_in_elem_of. split.
  - destruct (valid_transitions !! from_step) as [l|] eqn:E; simpl.
    + intros H. exists l. by rewrite <- valid_transitions_lookup.
    + by intros ?%elem_of_nil.
  - intros (l & Hl%valid_transitions_lookup & Hto). by rewrite Hl.
Qed.

Lemma table_edges_valid :
  Forall (λ ft, validate_state_transition ft.1 ft.2 = true) Spec.transition_table.
Proof. repeat constructor. Qed.

(** The code's dictionary and the specification's table list the same edges. *)
Lemma validate_iff_table from_step to_step :
  validate_state_transition from_step to_step = true ↔
  (from_step, to_step) ∈ Spec.transition_table.
Proof.
  split.
  - rewrite validate_state_transition_elem.
    unfold valid_transitions_items.
    intros (l & Hl & Hto).
    repeat (apply elem_of_cons in Hl as [Hl|Hl];
      [injection Hl as -> ->;
       repeat (apply elem_of_cons in Hto as [->|Hto]; [by_eval|]);
       by apply elem_of_nil in Hto|]).
    by apply elem_of_nil in Hl.
  - intros H. exact (proj1 (Forall_forall _ _) table_edges_valid _ H).
Qed.

Lemma not_true_false (b : bool) : ¬ (b = true) → b = false.
Proof. by destruct b. Qed.

(** C1: [validate_state_transition from to] is [true] exactly for the pairs
    of the specification's transition table, and no transition leaves
    [completed], not even to [completed] itself. *)
Theorem validate_state_transition_iff_table :
  (∀ from_step to_step,
     validate_state_transition from_step to_step = true ↔
     (from_step, to_step) ∈ Spec.transition_table) ∧
  (∀ x, validate_state_transition "completed" x = false).
Proof.
  split; [exact validate_iff_table|].
  intros x. apply not_true_false. rewrite validate_iff_table. intros H.
  table_cases H.
Qed.

(** C5: from a step that is not one of the ten keys of the transition
    table, no transition is valid: the validator returns [false] (it is a
    total function, so the answer is always a boolean and never an
    exception). *)
Theorem validate_state_transition_unknown_from (from_step to_step : string) :
  from_step ∉ Spec.table_keys →
  validate_state_transition from_step to_step = false.
Proof.
  intros Hkey. apply not_true_false. rewrite validate_iff_table. intros H.
  apply Hkey. table_cases H; by_eval.
Qed.

Lemma validate_state_transition_unknown_from_witness :
  validate_state_transition "retry" "parsing_resume" = false.
Proof.
  apply validate_state_transition_unknown_from.
  apply (bool_decide_unpack _). vm_compute. exact I.
Defined.

(** C6, as stated, fails: [resume_parsed] is one of the seven productive
    states, and it has no edge to [error]. *)
Lemma error_not_reachable_from_resume_parsed :
  "resume_parsed" ∈ Spec.productive_states ∧
  validate_state_transition "resume_parsed" "error" = false.
Proof. split; [by_eval | reflexivity]. Qed.

(** C6, amended: [error] is reachable in one transition from exactly the
    four in-progress steps [parsing_resume], [searching_jobs],
    [scoring_ats] and [generating_advice], and from [error] both escapes,
    to [retry] and to [completed], are valid. *)
Theorem error_reachable_from_in_progress_steps :
  (∀ s, validate_state_transition s "error" = true ↔
        s ∈ ["parsing_resume"; "searching_jobs"; "scoring_ats"; "generating_advice"]) ∧
  validate_state_transition "error" "retry" = true ∧
  validate_state_transition "error" "completed" = true.
Proof.
  split; [|split; reflexivity].
  intros s. split.
  - rewrite validate_iff_table. intros H.
    table_cases H; by_eval.
  - intros H.
    repeat (apply elem_of_cons in H as [->|H]; [reflexivity|]).
    by apply elem_of_nil in H.
Qed.

End transitions.

Section progress.
Import Py ResumeAnalysisState.

Lemma step_progress_keys : step_progress_items.*1 = Spec.progress_table.*1.
Proof. reflexivity. Qed.

Lemma step_progress_unknown s :
  s ∉ Spec.progress_table.*1 → step_progress !! s = None.
Proof.
  intros H. apply not_elem_of_list_to_map_1. by rewrite step_progress_keys.
Qed.

Lemma progress_unknown s :
  s ∉ Spec.progress_table.*1 →
  get_state_progress_percentage s = S754_zero false.
Proof.
  intros H. unfold get_state_progress_percentage.
  by rewrite (step_progress_unknown s H).
Qed.

(** C2: each recognized step name is mapped to the float of its fixed
    percentage, whose exact value is that integer, and every other string
    is mapped to [0.0]; the function is total, so it returns a value for
    every string. *)
Theorem get_state_progress_percentage_table :
  Forall (λ sp,
      get_state_progress_percentage sp.1 = float_lit sp.2 ∧
      float_value (get_state_progress_percentage sp.1) = Some (inject_Z sp.2))
    Spec.progress_table ∧
  (∀ s, s ∉ Spec.progress_table.*1 →
        get_state_progress_percentage s = S754_zero false ∧
        float_value (get_state_progress_percentage s) = Some (inject_Z 0)).
Proof.
  split.
  - repeat constructor.
  - intros s H. by rewrite (progress_unknown s H).
Qed.

Lemma get_state_progress_percentage_table_witness :
  get_state_progress_percentage "paused" = S754_zero false ∧
  float_value (get_state_progress_percentage "paused") = Some (inject_Z 0).
Proof.
  apply (proj2 get_state_progress_percentage_table "paused").
  apply (bool_decide_unpack _). vm_compute. exact I.
Defined.

(** C9: [retry], a permitted target from [error], is not a key of the
    progress table, so its progress is [0.0], the value every unrecognized
    step gets. *)
Theorem progress_of_retry_is_zero :
  validate_state_transition "error" "retry" = true ∧
  step_progress !! "retry" = None ∧
  get_state_progress_percentage "retry" = S754_zero false ∧
  (∀ s, s ∉ Spec.progress_table.*1 →
        get_state_progress_percentage s = get_state_progress_percentage "retry").
Proof.
  split; [reflexivity|]. split; [reflexivity|]. split; [reflexivity|].
  intros s H. by rewrite (progress_unknown s H).
Qed.

Lemma progress_of_retry_is_zero_witness :
  get_state_progress_percentage "no_such_step" = get_state_progress_percentage "retry".
Proof.
  apply (proj2 (proj2 (proj2 progress_of_retry_is_zero)) "no_such_step").
  apply (bool_decide_unpack _). vm_compute. exact I.
Defined.

(** C4, as stated, fails: the edge from [parsing_resume] (10) to [error]
    (0) is valid and progress drops along it. *)
Lemma progress_drops_on_error_edge :
  validate_state_transition "parsing_resume" "error" = true ∧
  float_le (get_state_progress_percentage "parsing_resume")
           (get_state_progress_percentage "error") = false.
Proof. split; reflexivity. Qed.

(** C4, amended: progress is non-decreasing along every valid transition
    whose target is not [error], and in particular along the canonical
    success path. *)
Theorem progress_monotone_off_error :
  (∀ from_step to_step,
     validate_state_transition from_step to_step = true →
     to_step ≠ "error" →
     float_le (get_state_progress_percentage from_step)
              (get_state_progress_percentage to_step) = true) ∧
  nondecreasing (get_state_progress_percentage <$> Spec.success_path) = true.
Proof.
  split; [|reflexivity].
  intros from_step to_step H Hne. apply validate_iff_table in H.
  table_cases H; first [reflexivity | by destruct Hne].
Qed.

Lemma progress_monotone_off_error_witness :
  float_le (get_state_progress_percentage "generating_advice")
           (get_state_progress_percentage "completed") = true.
Proof.
  apply (proj1 progress_monotone_off_error "generating_advice" "completed").
  - vm_compute. reflexivity.
  - discriminate.
Defined.

End progress.

Section factory.
Import Py datetime ResumeAnalysisState.

(** C3: whatever the file path, the four optional targeting arguments and
    the clock, [create_initial_state] returns a state whose input fields are
    the arguments, whose list fields are empty, whose optional output
    scalars are [None], with [total_jobs_found = 0], [current_step =
    "initialized"], [is_complete = False], [workflow_version = "1.0.0"] and
    [timestamp_started] the [isoformat] text of the clock's reading, which
    reads back as ISO-8601 to that very date and time. *)
Theorem create_initial_state_fields
    (path : string) (job_title industry loc level : option string) (w : World) :
  let s := create_initial_state path job_title industry loc level w in
  (uploaded_file_path s = Some path ∧ target_job_title s = job_title ∧
   target_industry s = industry ∧ target_location s = loc ∧
   experience_level s = level) ∧
  (messages s = [] ∧ parsing_errors s = [] ∧ matching_jobs s = [] ∧
   job_search_errors s = [] ∧ ats_scores s = [] ∧
   improvement_recommendations s = [] ∧ personalized_tips s = [] ∧
   priority_improvements s = [] ∧ errors s = [] ∧ warnings s = []) ∧
  (resume_data s = None ∧ file_format s = None ∧ parsing_confidence s = None ∧
   search_query_used s = None ∧ average_ats_score s = None ∧
   best_ats_match s = None ∧ resume_enhancements s = None ∧
   processing_time_seconds s = None ∧ timestamp_completed s = None ∧
   user_id s = None) ∧
  total_jobs_found s = 0 ∧
  current_step s = "initialized" ∧
  is_complete s = false ∧
  workflow_version s = Some "1.0.0" ∧
  timestamp_started s = Some (isoformat (now w)) ∧
  (datetime_wf (now w) →
   ∃ ts, timestamp_started s = Some ts ∧ Spec.iso8601_read ts = Some (now w)).
Proof.
  cbv zeta. repeat split.
  intros Hwf. eexists. split; [reflexivity|].
  by apply iso8601_read_isoformat.
Qed.

Lemma create_initial_state_fields_witness :
  let w := {| clock := Build_datetime 2024 3 9 7 5 0 1234 |} in
  ∃ ts, timestamp_started (create_initial_state "resume.pdf" None None None None w)
        = Some ts ∧
        Spec.iso8601_read ts = Some (now w).
Proof.
  intros w.
  apply (create_initial_state_fields "resume.pdf" None None None None w).
  unfold datetime_wf. simpl. lia.
Defined.

(** C10: two calls with the same arguments, in whatever worlds, return
    states that agree on every field other than [timestamp_started], which
    in each is the [isoformat] text of that call's clock reading; so equal
    readings give equal states, and different readings give different
    [timestamp_started]. *)
Theorem create_initial_state_clock_only
    (path : string) (job_title industry loc level : option string) (w1 w2 : World) :
  let s1 := create_initial_state path job_title industry loc level w1 in
  let s2 := create_initial_state path job_title industry loc level w2 in
  Spec.agree_except_timestamp_started s1 s2 ∧
  timestamp_started s1 = Some (isoformat (now w1)) ∧
  timestamp_started s2 = Some (isoformat (now w2)) ∧
  (now w1 = now w2 → s1 = s2) ∧
  (datetime_wf (now w1) → datetime_wf (now w2) → now w1 ≠ now w2 →
   timestamp_started s1 ≠ timestamp_started s2).
Proof.
  cbv zeta. split; [|split; [|split; [|split]]].
  - unfold Spec.agree_except_timestamp_started. cbv zeta beta. repeat split.
  - reflexivity.
  - reflexivity.
  - intros Hnow. unfold create_initial_state. by rewrite Hnow.
  - intros Hwf1 Hwf2 Hne. simpl. intros [= Heq]. apply Hne.
    apply iso8601_read_isoformat in Hwf1, Hwf2.
    rewrite Heq in Hwf1. congruence.
Qed.

Lemma create_initial_state_clock_only_witness :
  let w1 := {| clock := Build_datetime 2024 12 31 23 59 59 999999 |} in
  let w2 := {| clock := Build_datetime 2025 1 1 0 0 0 0 |} in
  timestamp_started (create_initial_state "resume.pdf" None None None None w1) ≠
  timestamp_started (create_initial_state "resume.pdf" None None None None w2).
Proof.
  intros w1 w2.
  apply (create_initial_state_clock_only "resume.pdf" None None None None w1 w2).
  - unfold datetime_wf. simpl. lia.
  - unfold datetime_wf. simpl. lia.
  - discriminate.
Defined.

End factory.

Section file_validation.
Import Py os_path utilities.

Example splitext_examples :
  splitext "uploads/cv.pdf" = ("uploads/cv", ".pdf") ∧
  splitext "archive.tar.gz" = ("archive.tar", ".gz") ∧
  splitext "v1.2/readme" = ("v1.2/readme", "") ∧
  splitext "dir/.bashrc" = ("dir/.bashrc", "") ∧
  splitext "dir/..name.txt" = ("dir/..name", ".txt") ∧
  splitext "name." = ("name", ".").
Proof. repeat split; vm_compute; reflexivity. Qed.

Lemma size_in_mb_total (fs : filesystem) path size :
  fs_wf fs → fs !! path = Some size →
  ∃ mb, int_truediv size (1024 * 1024) = Ok mb.
Proof.
  intros Hwf Hsz. specialize (Hwf path size Hsz). simpl in Hwf.
  assert (2 ^ 63 < 2 ^ 64) by (by apply Z.pow_lt_mono_r).
  destruct (int_truediv_finite size (1024 * 1024)) as (mb & Hmb & _);
    [lia | done | by exists mb].
Qed.

(** A bound whose numeral has at most [int_max_str_digits] digits can be
    written. *)
Lemma str_int_returns n :
  - 10 ^ int_max_str_digits < n < 10 ^ int_max_str_digits →
  ∃ s, str_int n = Ok s.
Proof.
  intros Hn. unfold str_int.
  destruct (Z.leb_spec (10 ^ int_max_str_digits) (Z.abs n)); [lia|by eexists].
Qed.

(** The four ways through [validate_file], each with its message; the
    second one writes the bound into the message. *)
Lemma validate_file_cases (fs : filesystem) path max_size_mb :
  fs_wf fs →
  (¬ Spec.file_exists fs path ∧
   validate_file fs path max_size_mb = Ok (false, Some "File does not exist")) ∨
  (Spec.file_exists fs path ∧ ¬ Spec.size_within fs path max_size_mb ∧
   ∃ size mb,
     fs !! path = Some size ∧ int_truediv size (1024 * 1024) = Ok mb ∧
     validate_file fs path max_size_mb =
       (max_text ← str_int max_size_mb;
        mret (false, Some ("File too large: " +:+ format_float_1f mb +:+
                           "MB (max: " +:+ max_text +:+ "MB)")))) ∨
  (Spec.file_exists fs path ∧ Spec.size_within fs path max_size_mb ∧
   ¬ Spec.extension_allowed path ∧
   validate_file fs path max_size_mb =
     Ok (false, Some ("Unsupported file type: " +:+
                      (splitext (str_lower path)).2 +:+
                      ". Allowed: ['.pdf', '.docx', '.txt']"))) ∨
  (Spec.file_is_valid fs path max_size_mb ∧
   validate_file fs path max_size_mb = Ok (true, None)).
Proof.
  intros Hwf. unfold validate_file, exists_, getsize, Spec.file_is_valid,
    Spec.file_exists, Spec.size_within, Spec.extension_allowed.
  cbv zeta.
  pose proof (str_in_elem_of (splitext (str_lower path)).2
                [".pdf"; ".docx"; ".txt"]) as Hin.
  pose proof (str_in_false (splitext (str_lower path)).2
                [".pdf"; ".docx"; ".txt"]) as Hout.
  destruct (str_in (splitext (str_lower path)).2 [".pdf"; ".docx"; ".txt"]).
  all: destruct (fs !! path) as [size|] eqn:Hsz;
    [right; rewrite bool_decide_eq_true_2 by done
    |left; rewrite bool_decide_eq_false_2 by (by intros [? ?]);
     split; [by intros [? ?] | done]].
  all: destruct (size_in_mb_total fs path size Hwf Hsz) as [mb Hmb];
    cbn; rewrite Hmb; cbn.
  all: destruct (float_gt_int mb max_size_mb) eqn:Hgt;
    [left; split; [done|]; split; [|by exists size, mb];
     intros (size' & mb' & [= <-] & Hmb' & Hle); congruence
    |right].
  all: assert (∃ size' mb', Some size = Some size' ∧
            int_truediv size' (1024 * 1024) = Ok mb' ∧
            float_gt_int mb' max_size_mb = false) as Hwithin
    by (by exists size, mb).
  - right. split; [|done].
    split; [done|]. split; [done|]. by apply Hin.
  - left. split; [done|]. split; [done|]. split; [by apply Hout|].
    reflexivity.
Qed.

(** For a bound below [2^33] megabytes, a file is within the bound exactly
    when its size in bytes is at most [max_size_mb * 2^20]. *)
Lemma size_within_exact (fs : filesystem) path max_size_mb :
  fs_wf fs → max_size_mb < 2 ^ 33 →
  Spec.size_within fs path max_size_mb ↔
  ∃ size, fs !! path = Some size ∧ size ≤ max_size_mb * 1048576.
Proof.
  intros Hwf Hmax. unfold Spec.size_within. split.
  - intros (size & mb & Hsz & Hmb & Hle). exists size. split; [done|].
    destruct (size_check_exact size max_size_mb (Hwf path size Hsz)
                ltac:(by right)) as (mb' & Hmb' & Hiff).
    assert (mb' = mb) as -> by congruence.
    destruct (Z.le_gt_cases size (max_size_mb * 1048576)) as [?|Hgt]; [done|].
    apply Hiff in Hgt. congruence.
  - intros (size & Hsz & Hle).
    destruct (size_check_exact size max_size_mb (Hwf path size Hsz)
                ltac:(by right)) as (mb & Hmb & Hiff).
    exists size, mb. repeat split; [done..|].
    apply not_true_false. rewrite Hiff. lia.
Qed.

(** With a bound of more than [int_max_str_digits] digits below zero, every
    file that exists is too large, and the message that would say so
    cannot be written. *)
Lemma validate_file_raises (fs : filesystem) path max_size_mb :
  fs_wf fs → Spec.file_exists fs path →
  max_size_mb ≤ - 10 ^ int_max_str_digits →
  validate_file fs path max_size_mb = Raise ValueError.
Proof.
  intros Hwf Hex Hmax.
  assert (0 < 10 ^ int_max_str_digits) as Hpos by (by apply Z.pow_pos_nonneg).
  assert (str_int max_size_mb = Raise ValueError) as Htext.
  { unfold str_int.
    by destruct (Z.leb_spec (10 ^ int_max_str_digits) (Z.abs max_size_mb));
      [|lia]. }
  assert (¬ Spec.size_within fs path max_size_mb) as Hover.
  { rewrite size_within_exact by (done || lia).
    intros (size & Hsz & Hle). specialize (Hwf path size Hsz).
    cbv beta in Hwf. lia. }
  clear Hpos Hmax.
  destruct (validate_file_cases fs path max_size_mb Hwf)
    as [[Hno _]|[(_ & _ & size & mb & _ & _ & ->)
                |[(_ & Hsz & _)|[(_ & Hsz & _) _]]]]; [done| |done..].
  by rewrite Htext.
Qed.

(** The model run on a small filesystem. *)
Definition sample_fs : filesystem :=
  {[ "uploads/cv.PDF" := 3 * 1024 * 1024;
     "uploads/big.txt" := 5 * 1024 * 1024 + 1;
     "uploads/notes.tar.gz" := 393216;
     "uploads/.hidden" := 10;
     "uploads/huge.pdf" := 2 ^ 53 + 1 ]}.

(** C7, as stated for every bound, fails at both ends.  A file of
    [2^53 + 1] bytes is one byte over [2^33] megabytes, yet [validate_file]
    accepts it at the bound [2^33]: the float [getsize / (1024 * 1024)] is
    rounded onto the bound.  And at the bound [-10^4300], whose numeral has
    4301 digits, the message [File too large: ...] cannot be written:
    [validate_file] raises [ValueError]. *)
Lemma validate_file_rounds_and_raises :
  (validate_file sample_fs "uploads/huge.pdf" (2 ^ 33) = Ok (true, None) ∧
   ¬ Spec.valid_file sample_fs "uploads/huge.pdf" (2 ^ 33)) ∧
  validate_file sample_fs "uploads/cv.PDF" (- 10 ^ 4300) = Raise ValueError.
Proof.
  split; [split|].
  - vm_compute. reflexivity.
  - intros (_ & (size & Hsz & Hle) & _).
    assert (sample_fs !! "uploads/huge.pdf" = Some (2 ^ 53 + 1)) as Hhuge
      by (vm_compute; reflexivity).
    rewrite Hhuge in Hsz. injection Hsz as <-. by vm_compute in Hle.
  - apply validate_file_raises.
    + apply (bool_decide_unpack _). vm_compute. exact I.
    + by eexists.
    + apply Z.le_refl.
Qed.

(** C7, amended: for a bound above [-10^4300] and below [2^33],
    [validate_file] returns [(True, None)] exactly when the file exists, its
    size in megabytes does not exceed [max_size_mb] and the extension of
    the lowercased path is [.pdf], [.docx] or [.txt]; in every other case
    it returns [(False, m)] with a message [m]; it never raises, and the
    message is present exactly when the flag is [False]. *)
Theorem validate_file_spec (fs : filesystem) (path : string) (max_size_mb : Z) :
  fs_wf fs →
  - 10 ^ int_max_str_digits < max_size_mb < 2 ^ 33 →
  (validate_file fs path max_size_mb = Ok (true, None) ↔
   Spec.valid_file fs path max_size_mb) ∧
  (¬ Spec.valid_file fs path max_size_mb →
   ∃ m, validate_file fs path max_size_mb = Ok (false, Some m)) ∧
  (∃ b m, validate_file fs path max_size_mb = Ok (b, m) ∧
          (m = None ↔ b = true)).
Proof.
  intros Hwf [Hlo Hhi].
  assert (2 ^ 33 < 10 ^ int_max_str_digits) as Hdigits.
  { apply (Z.lt_le_trans _ (10 ^ 33)); [done|].
    by apply Z.pow_le_mono_r. }
  destruct (str_int_returns max_size_mb ltac:(lia)) as [max_text Htext].
  clear Hdigits Hlo.
  assert (Spec.file_is_valid fs path max_size_mb ↔
          Spec.valid_file fs path max_size_mb) as Hexact.
  { unfold Spec.file_is_valid, Spec.valid_file, Spec.size_at_most.
    by rewrite (size_within_exact fs path max_size_mb Hwf Hhi). }
  rewrite <- Hexact.
  destruct (validate_file_cases fs path max_size_mb Hwf)
    as [[Hno ->]|[(Hex & Hno & size & mb & _ & _ & ->)
                 |[(Hex & Hsz & Hno & ->)|[Hok ->]]]].
  - split; [|split].
    + split; [done|]. by intros (? & _).
    + by eexists.
    + by eexists false, (Some _).
  - rewrite Htext. split; [|split].
    + split; [done|]. by intros (_ & ? & _).
    + by eexists.
    + by eexists false, (Some _).
  - split; [|split].
    + split; [done|]. by intros (_ & _ & ?).
    + by eexists.
    + by eexists false, (Some _).
  - split; [|split].
    + done.
    + done.
    + by exists true, None.
Qed.

Lemma validate_file_spec_witness :
  validate_file {[ "uploads/cv.PDF" := 3 * 1024 * 1024 ]} "uploads/cv.PDF" 5
    = Ok (true, None) ↔
  Spec.valid_file {[ "uploads/cv.PDF" := 3 * 1024 * 1024 ]} "uploads/cv.PDF" 5.
Proof.
  apply (validate_file_spec {[ "uploads/cv.PDF" := 3 * 1024 * 1024 ]}
           "uploads/cv.PDF" 5).
  - apply (bool_decide_unpack _). vm_compute. exact I.
  - split; vm_compute; reflexivity.
Defined.

Example validate_file_accepts :
  validate_file sample_fs "uploads/cv.PDF" 5 = Ok (true, None).
Proof. vm_compute. reflexivity. Qed.

Example validate_file_missing :
  validate_file sample_fs "uploads/cv.pdf" 5
  = Ok (false, Some "File does not exist").
Proof. vm_compute. reflexivity. Qed.

Example validate_file_too_large :
  validate_file sample_fs "uploads/big.txt" 5
  = Ok (false, Some "File too large: 5.0MB (max: 5MB)").
Proof. vm_compute. reflexivity. Qed.

Example validate_file_size_before_extension :
  validate_file sample_fs "uploads/notes.tar.gz" 0
  = Ok (false, Some "File too large: 0.4MB (max: 0MB)").
Proof. vm_compute. reflexivity. Qed.

Example validate_file_unsupported :
  validate_file sample_fs "uploads/notes.tar.gz" 5
  = Ok (false, Some "Unsupported file type: .gz. Allowed: ['.pdf', '.docx', '.txt']").
Proof. vm_compute. reflexivity. Qed.

Example validate_file_no_extension :
  validate_file sample_fs "uploads/.hidden" 5
  = Ok (false, Some "Unsupported file type: . Allowed: ['.pdf', '.docx', '.txt']").
Proof. vm_compute. reflexivity. Qed.

(** From [2^33] megabytes on, the float quotient can round down onto the
    bound: [2^53 + 1] bytes are [2^33] megabytes as a float. *)
Example validate_file_rounded_size :
  validate_file sample_fs "uploads/huge.pdf" (2 ^ 33) = Ok (true, None) ∧
  validate_file sample_fs "uploads/huge.pdf" (2 ^ 33 - 1)
  = Ok (false, Some "File too large: 8589934592.0MB (max: 8589934591MB)").
Proof. split; vm_compute; reflexivity. Qed.

End file_validation.

(** * Further properties of the code *)

(** ** More on rounding: mantissas, and [round(x, 2)] of a file size *)

Section rounding_more.
Import Py.

(** Shifting right [n] times divides the mantissa by [2^n]. *)
Lemma iter_pos_shr_1_div n : ∀ mrs,
  0 ≤ shr_m mrs →
  shr_m (SpecFloat.iter_pos shr_1 n mrs) = shr_m mrs / 2 ^ Z.pos n.
Proof.
  induction n as [n IH|n IH|]; intros mrs H; simpl SpecFloat.iter_pos.
  - pose proof (shr_1_bound mrs H).
    pose proof (iter_pos_shr_1_bound n (shr_1 mrs) ltac:(lia)).
    rewrite IH, IH, shr_1_div2 by lia.
    rewrite !Z.div_div by (try apply Z.pow_pos_nonneg; lia).
    f_equal.
    assert (2 ^ Z.pos n~1 = 2 * 2 ^ Z.pos n * 2 ^ Z.pos n) as ->; [|lia].
    rewrite <- Z.pow_succ_r, <- Z.pow_add_r by lia. f_equal. lia.
  - pose proof (iter_pos_shr_1_bound n mrs H).
    rewrite IH, IH by lia.
    rewrite !Z.div_div by (try apply Z.pow_pos_nonneg; lia).
    f_equal.
    assert (2 ^ Z.pos n~0 = 2 ^ Z.pos n * 2 ^ Z.pos n) as ->; [|lia].
    rewrite <- Z.pow_add_r by lia. f_equal. lia.
  - by apply shr_1_div2.
Qed.

(** After an alignment step the mantissa has at most 53 bits. *)
Lemma shr_fexp_mantissa m e l mrs e' :
  0 ≤ m → shr_fexp prec emax m e l = (mrs, e') → shr_m mrs < 2 ^ 53.
Proof.
  intros Hm. unfold shr_fexp, shr.
  destruct (decide (m = 0)) as [->|Hne].
  { destruct (fexp prec emax (Zdigits2 0 + e) - e) as [|n|n];
      intros [= <- <-]; rewrite ?iter_pos_shr_1_div;
      rewrite ?shr_record_of_loc_m; done. }
  pose proof (Zdigits2_spec m ltac:(lia)) as [_ Hhi].
  pose proof (Zdigits2_nonneg m) as Hd.
  assert (∀ k, Zdigits2 m ≤ k → m < 2 ^ k) as Hpow.
  { intros k Hk. eapply Z.lt_le_trans; [exact Hhi|].
    apply Z.pow_le_mono_r; lia. }
  destruct (fexp prec emax (Zdigits2 m + e) - e) as [|n|n] eqn:En;
    intros [= <- <-].
  - rewrite shr_record_of_loc_m. apply Hpow.
    unfold fexp, SpecFloat.emin, prec, emax in En. lia.
  - rewrite iter_pos_shr_1_div by (rewrite shr_record_of_loc_m; lia).
    rewrite shr_record_of_loc_m.
    apply Z.div_lt_upper_bound; [apply Z.pow_pos_nonneg; lia|].
    rewrite <- Z.pow_add_r by lia. apply Hpow.
    unfold fexp, SpecFloat.emin, prec, emax in En. lia.
  - rewrite shr_record_of_loc_m. apply Hpow.
    unfold fexp, SpecFloat.emin, prec, emax in En. lia.
Qed.

(** The mantissa of a rounded float has at most 53 bits. *)
Lemma binary_round_aux_mantissa s m e l s' p e' :
  0 ≤ m → binary_round_aux prec emax s m e l = S754_finite s' p e' →
  Z.pos p < 2 ^ 53.
Proof.
  intros Hm. unfold binary_round_aux.
  destruct (shr_fexp prec emax m e l) as [mrs1 e1] eqn:E1.
  apply shr_fexp_bound in E1 as [Hm1 _]; [|lia].
  pose proof (round_nearest_even_bound (shr_m mrs1) (loc_of_shr_record mrs1)
                ltac:(lia)) as Hr.
  destruct (shr_fexp prec emax _ e1 loc_Exact) as [mrs2 e2] eqn:E2.
  apply shr_fexp_mantissa in E2; [|lia].
  destruct (shr_m mrs2) as [|q|q]; [done| |done].
  destruct (e2 <=? emax - prec); [|done].
  by intros [= _ <- _].
Qed.

Lemma int_truediv_mantissa a b s p e :
  int_truediv a b = Ok (S754_finite s p e) → Z.pos p < 2 ^ 53.
Proof.
  unfold int_truediv.
  destruct (b =? 0); [done|]. destruct (a =? 0); [done|].
  destruct (SFdiv_core_binary prec emax (Z.abs a) 0 (Z.abs b) 0)
    as [[q e0] l] eqn:E.
  assert (0 ≤ q) as Hq.
  { revert E. unfold SFdiv_core_binary.
    set (m' := match _ with Z.pos _ => _ | _ => _ end).
    assert (0 ≤ m') as Hm'.
    { subst m'. destruct (_ - _ - _); [lia| |lia].
      apply Z.shiftl_nonneg. lia. }
    destruct (decide (Z.abs b = 0)) as [->|Hb].
    { destruct m'; simpl; intros [= <- _ _]; lia. }
    pose proof (Z.div_pos m' (Z.abs b) Hm' ltac:(lia)) as Hdiv.
    unfold Z.div in Hdiv.
    destruct (Z.div_eucl m' (Z.abs b)) as [q' r']. by intros [= <- _ _]. }
  destruct (binary_round_aux prec emax _ q e0 l) as [| | |s0 p0 e1] eqn:Er;
    try done.
  intros [= -> -> ->]. by eapply binary_round_aux_mantissa.
Qed.

(** The size in megabytes of a 63-bit size: zero, or a positive float with
    a non-positive exponent. *)
Lemma file_size_mb_shape a :
  0 ≤ a < 2 ^ 63 →
  ∃ x, int_truediv a (1024 * 1024) = Ok x ∧
       (x = S754_zero false ∨
        ∃ p e, x = S754_finite false p e ∧ Z.pos p < 2 ^ 53 ∧ -100 ≤ e ≤ 0).
Proof.
  intros Ha.
  destruct (decide (a = 0)) as [->|Hne].
  { exists (S754_zero false). split; [done|by left]. }
  destruct (decide (a < 2 ^ 53)) as [Hsmall|Hlarge].
  - destruct (int_truediv_mb_exact a ltac:(lia)) as (p & Hp & _).
    eexists; split; [exact Hp|]. right. exists p, (Zdigits2 a - 73).
    split; [done|]. split; [by eapply int_truediv_mantissa|].
    pose proof (Zdigits2_bound a 53 ltac:(lia) ltac:(lia)).
    pose proof (Zdigits2_nonneg a). lia.
  - destruct (int_truediv_mb_large a ltac:(lia)) as (p & e & Hp & _ & He).
    eexists; split; [exact Hp|]. right. exists p, e.
    split; [done|]. split; [by eapply int_truediv_mantissa|lia].
Qed.

Lemma div_half_even_bound n d :
  0 ≤ n → 0 < d → 0 ≤ div_half_even n d ≤ n + 1.
Proof.
  intros Hn Hd. unfold div_half_even.
  pose proof (Z.div_pos n d Hn Hd).
  assert (n / d ≤ n) by (apply Z.div_le_upper_bound; nia).
  destruct (2 * (n mod d) ?= d); [destruct (Z.even (n / d))|..]; lia.
Qed.

(** [round(x, 2)] of such a float returns, and returns a finite float. *)
Lemma float_round_file_size x :
  (x = S754_zero false ∨
   ∃ p e, x = S754_finite false p e ∧ Z.pos p < 2 ^ 53 ∧ -100 ≤ e ≤ 0) →
  ∃ y, float_round x 2 = Ok y ∧ float_is_finite y = true.
Proof.
  intros [->|(p & e & -> & Hp & He)]; [by eexists|].
  unfold float_round. change (10 ^ Z.of_nat 2) with 100.
  set (n := if 0 <=? e then _ else _).
  assert (0 ≤ n < 2 ^ 64) as Hn.
  { assert (100 * 2 ^ 53 + 1 < 2 ^ 64) by done.
    subst n. destruct (0 <=? e) eqn:E.
    - assert (e = 0) as -> by lia. change (2 ^ 0) with 1. lia.
    - pose proof (div_half_even_bound (100 * Z.pos p) (2 ^ (- e)) ltac:(lia)
                    ltac:(apply Z.pow_pos_nonneg; lia)). lia. }
  destruct (n =? 0) eqn:E0; [by eexists|].
  apply int_truediv_finite; [lia|done].
Qed.

End rounding_more.

(** ** Lowercasing and splitting paths *)

Section paths.
Import Py os_path.

(** Lowercasing keeps the length and commutes with slicing and appending. *)
Lemma str_lower_length s : String.length (str_lower s) = String.length s.
Proof. induction s as [|c s IH]; simpl; congruence. Qed.

Lemma str_lower_substring s : ∀ n m,
  String.substring n m (str_lower s) = str_lower (String.substring n m s).
Proof.
  induction s as [|c s IH]; intros [|n] [|m]; simpl; try done; by rewrite IH.
Qed.

Lemma str_lower_app s t : str_lower (s +:+ t) = str_lower s +:+ str_lower t.
Proof.
  induction s as [|c s IH]; [done|].
  rewrite str_app_cons. simpl. by rewrite IH.
Qed.

(** A slash or a dot is the lowercase of itself only. *)
Lemma ascii_lower_slash x : ascii_lower x = "/"%char ↔ x = "/"%char.
Proof.
  destruct x as [[] [] [] [] [] [] [] []]; vm_compute; split; congruence.
Qed.

Lemma ascii_lower_dot x : ascii_lower x = "."%char ↔ x = "."%char.
Proof.
  destruct x as [[] [] [] [] [] [] [] []]; vm_compute; split; congruence.
Qed.

Lemma rfind_from_lower c s :
  (∀ x, ascii_lower x = c ↔ x = c) →
  ∀ i last, rfind_from c (str_lower s) i last = rfind_from c s i last.
Proof.
  intros Hc. induction s as [|x s IH]; intros i last; simpl; [done|].
  rewrite IH. f_equal.
  destruct (decide (ascii_lower x = c)) as [H|H], (decide (x = c)) as [H'|H'];
    try done.
  - by apply (proj1 (Hc x)) in H.
  - by apply (proj2 (Hc x)) in H'.
Qed.

Lemma str_lower_is_dot s : str_lower s = "." ↔ s = ".".
Proof.
  split; [|by intros ->].
  destruct s as [|c [|c' s]]; simpl; try done.
  intros [= H]. apply (proj1 (ascii_lower_dot c)) in H. by rewrite H.
Qed.

Lemma splitext_scan_lower fuel : ∀ p i,
  splitext_scan fuel (str_lower p) i = splitext_scan fuel p i.
Proof.
  induction fuel as [|fuel IH]; intros p i; simpl; [done|].
  rewrite IH. unfold str_slice1. rewrite str_lower_substring.
  destruct (decide (str_lower _ ≠ ".")) as [H|H],
           (decide (String.substring (Z.to_nat i) 1 p ≠ ".")) as [H'|H'];
    try done.
  - apply dec_stable in H'. by rewrite H' in H.
  - apply dec_stable in H. by apply (proj1 (str_lower_is_dot _)) in H.
Qed.

(** The extension of the lowercased path is the lowercased extension. *)
Lemma splitext_lower p :
  splitext (str_lower p) = (str_lower (splitext p).1, str_lower (splitext p).2).
Proof.
  unfold splitext, str_rfind, str_take, str_drop.
  rewrite !rfind_from_lower by (apply ascii_lower_slash || apply ascii_lower_dot).
  rewrite splitext_scan_lower.
  destruct (_ && _); simpl;
    by rewrite ?str_lower_length, !str_lower_substring.
Qed.

End paths.

Section slices.
Import Py os_path.










End slices.

(** ** The workflow as a graph *)

Section workflow.
Import Py datetime ResumeAnalysisState.

(** Every edge of the table goes up in rank. *)
Lemma edge_rank a b :
  validate_state_transition a b = true → (Spec.step_rank a < Spec.step_rank b)%nat.
Proof.
  intros H. apply validate_iff_table in H.
  table_cases H; vm_compute; lia.
Qed.

Lemma step_rank_max s : (Spec.step_rank s ≤ 9)%nat.
Proof.
  unfold Spec.step_rank.
  destruct (_ !! s) as [n|] eqn:E; simpl; [|lia].
  apply elem_of_list_to_map_2 in E. unfold Spec.step_rank_items in E.
  repeat (apply elem_of_cons in E as [E|E]; [injection E as -> ->; lia|]).
  by apply elem_of_nil in E.
Qed.

Lemma valid_path_cons a b l :
  Spec.valid_path (a :: b :: l) = true ↔
  validate_state_transition a b = true ∧ Spec.valid_path (b :: l) = true.
Proof. simpl. by rewrite andb_true_iff. Qed.

Lemma valid_path_rank a l :
  Spec.valid_path (a :: l) = true →
  (∀ x, x ∈ l → (Spec.step_rank a < Spec.step_rank x)%nat) ∧
  (Spec.step_rank a + length l ≤ 9)%nat.
Proof.
  revert a. induction l as [|b l IH]; intros a H.
  - split; [by intros x ?%elem_of_nil|]. pose proof (step_rank_max a). simpl. lia.
  - apply valid_path_cons in H as [Hab Hl].
    apply edge_rank in Hab. destruct (IH b Hl) as [Hlt Hlen].
    split; [|simpl; lia].
    intros x [->|Hx]%elem_of_cons; [done|]. specialize (Hlt x Hx). lia.
Qed.

(** X1: a chain of valid transitions never visits a step twice, and it has
    at most ten steps (nine transitions). *)
Theorem valid_path_acyclic (l : list string) :
  Spec.valid_path l = true → NoDup l ∧ (length l ≤ 10)%nat.
Proof.
  induction l as [|a l IH]; intros H.
  - split; [constructor|simpl; lia].
  - destruct (valid_path_rank a l H) as [Hlt Hlen].
    assert (Spec.valid_path l = true) as Hl.
    { destruct l as [|b l]; [done|]. by apply valid_path_cons in H as [_ ?]. }
    split; [|simpl; lia].
    constructor; [|by apply IH].
    intros Hin. specialize (Hlt a Hin). lia.
Qed.

Lemma valid_path_acyclic_witness :
  NoDup Spec.success_path ∧ (length Spec.success_path ≤ 10)%nat.
Proof. apply (valid_path_acyclic Spec.success_path). vm_compute. reflexivity. Defined.

(** X2: the pipeline is linear: from a step other than [error], at most one
    target other than [error] is valid. *)
Theorem unique_forward_step (from_step t1 t2 : string) :
  from_step ≠ "error" →
  validate_state_transition from_step t1 = true →
  validate_state_transition from_step t2 = true →
  t1 ≠ "error" → t2 ≠ "error" → t1 = t2.
Proof.
  intros Hf H1 H2 Hn1 Hn2.
  apply validate_iff_table in H1, H2.
  table_cases H1; table_cases H2; done.
Qed.

Lemma unique_forward_step_witness : "scoring_ats" = "scoring_ats".
Proof.
  apply (unique_forward_step "jobs_found" "scoring_ats" "scoring_ats");
    first [discriminate | vm_compute; reflexivity].
Defined.

(** X3: from every key of the transition table a chain of valid
    transitions leads to [completed]; from [retry] no transition leads
    anywhere, so [completed] cannot be reached from it. *)
Theorem completed_reachable_retry_dead_end :
  (∀ s, s ∈ Spec.table_keys →
     ∃ l, Spec.valid_path (s :: l) = true ∧ last (s :: l) = Some "completed") ∧
  (∀ l, Spec.valid_path ("retry" :: l) = true → l = []).
Proof.
  split.
  - intros s Hs. unfold Spec.table_keys in Hs.
    repeat (apply elem_of_cons in Hs as [->|Hs];
      [first
         [ by exists ["parsing_resume"; "error"; "completed"]
         | by exists ["error"; "completed"]
         | by exists ["searching_jobs"; "error"; "completed"]
         | by exists ["scoring_ats"; "error"; "completed"]
         | by exists ["generating_advice"; "completed"]
         | by exists ["completed"]
         | by exists [] ]|]).
    by apply elem_of_nil in Hs.
  - intros [|b l] H; [done|].
    apply valid_path_cons in H as [H _].
    apply validate_iff_table in H. table_cases H.
Qed.

Lemma completed_reachable_retry_dead_end_witness :
  ∃ l, Spec.valid_path ("jobs_found" :: l) = true ∧
       last ("jobs_found" :: l) = Some "completed".
Proof.
  apply (proj1 completed_reachable_retry_dead_end "jobs_found").
  apply (bool_decide_unpack _). vm_compute. exact I.
Defined.

Lemma step_progress_lookup s v :
  step_progress !! s = Some v → (s, v) ∈ step_progress_items.
Proof. apply elem_of_list_to_map_2. Qed.

(** X4: for every string the progress lies between [0.0] and [100.0]. *)
Theorem progress_range (s : string) :
  float_le (float_lit 0) (get_state_progress_percentage s) = true ∧
  float_le (get_state_progress_percentage s) (float_lit 100) = true.
Proof.
  unfold get_state_progress_percentage.
  destruct (step_progress !! s) as [v|] eqn:E; simpl; [|by split].
  apply step_progress_lookup in E. unfold step_progress_items in E.
  repeat (apply elem_of_cons in E as [E|E]; [injection E as -> ->; by split|]).
  by apply elem_of_nil in E.
Qed.

(** X5: the progress is [100.0] for the step [completed] and for no other
    string. *)
Theorem progress_full_iff_completed (s : string) :
  get_state_progress_percentage s = float_lit 100 ↔ s = "completed".
Proof.
  split; [|by intros ->].
  unfold get_state_progress_percentage.
  destruct (step_progress !! s) as [v|] eqn:E; simpl; [|by vm_compute].
  apply step_progress_lookup in E. unfold step_progress_items in E.
  repeat (apply elem_of_cons in E as [E|E];
          [injection E as -> ->; first [done | by vm_compute]|]).
  by apply elem_of_nil in E.
Qed.

(** X6: along a valid transition whose target is neither [error] nor
    [retry] the progress strictly increases. *)
Theorem progress_strict_forward (from_step to_step : string) :
  validate_state_transition from_step to_step = true →
  to_step ≠ "error" → to_step ≠ "retry" →
  float_lt (get_state_progress_percentage from_step)
           (get_state_progress_percentage to_step) = true.
Proof.
  intros H Hne Hnr. apply validate_iff_table in H.
  table_cases H; first [reflexivity | done].
Qed.

Lemma progress_strict_forward_witness :
  float_lt (get_state_progress_percentage "ats_scored")
           (get_state_progress_percentage "generating_advice") = true.
Proof.
  apply (progress_strict_forward "ats_scored" "generating_advice");
    first [discriminate | vm_compute; reflexivity].
Defined.

(** X7: from the step of a fresh state the one valid transition is to
    [parsing_resume], and its progress is [0.0]. *)
Theorem initial_state_next_step
    (path : string) (job_title industry loc level : option string) (w : World) :
  let s := create_initial_state path job_title industry loc level w in
  (∀ t, validate_state_transition (current_step s) t = true ↔ t = "parsing_resume") ∧
  get_state_progress_percentage (current_step s) = float_lit 0.
Proof.
  cbv zeta. split; [|reflexivity]. intros t. simpl. split.
  - intros H. apply validate_iff_table in H. by table_cases H.
  - by intros ->.
Qed.

End workflow.

(** ** Validating a file, once more *)

Section files.
Import Py os_path utilities.

Lemma float_gt_int_mono x n n' :
  n ≤ n' → float_gt_int x n = false → float_gt_int x n' = false.
Proof.
  intros Hn. destruct x as [s|s| |s m e]; simpl; try done.
  - rewrite !Z.ltb_ge. lia.
  - destruct (0 <=? e); rewrite !Z.ltb_ge.
    + lia.
    + intros H. etrans; [exact H|].
      apply Z.mul_le_mono_nonneg_r; [apply Z.pow_nonneg|]; lia.
Qed.

(** [validate_file] accepts a file exactly when the three conditions hold. *)
Lemma validate_file_accepts_iff (fs : filesystem) path max_size_mb :
  fs_wf fs →
  validate_file fs path max_size_mb = Ok (true, None) ↔
  Spec.file_is_valid fs path max_size_mb.
Proof.
  intros Hwf.
  destruct (validate_file_cases fs path max_size_mb Hwf)
    as [[Hno ->]|[(Hex & Hno & size & mb & _ & _ & ->)
                 |[(Hex & Hsz & Hno & ->)|[Hok ->]]]].
  - split; [done|]. by intros (? & _).
  - split; [|by intros (_ & ? & _)].
    by destruct (str_int max_size_mb).
  - split; [done|]. by intros (_ & _ & ?).
  - done.
Qed.

(** X8: a file accepted under a bound is accepted under every larger
    bound. *)
Theorem validate_file_monotone (fs : filesystem) (path : string) (m m' : Z) :
  fs_wf fs → m ≤ m' →
  validate_file fs path m = Ok (true, None) →
  validate_file fs path m' = Ok (true, None).
Proof.
  intros Hwf Hm. rewrite !validate_file_accepts_iff by done.
  intros (Hex & (size & mb & Hsz & Hmb & Hle) & Hext).
  split; [done|]. split; [|done].
  exists size, mb. repeat split; [done..|]. by eapply float_gt_int_mono.
Qed.

Lemma validate_file_monotone_witness :
  validate_file sample_fs "uploads/cv.PDF" 10 = Ok (true, None).
Proof.
  apply (validate_file_monotone sample_fs "uploads/cv.PDF" 5 10).
  - apply (bool_decide_unpack _). vm_compute. exact I.
  - lia.
  - vm_compute. reflexivity.
Defined.

Lemma prefix_app s t : String.prefix s (s +:+ t) = true.
Proof.
  induction s as [|c s IH]; [by destruct t|].
  rewrite str_app_cons. simpl. by destruct (ascii_dec c c).
Qed.

(** X9: the error message tells which check failed: it starts with
    [File does not exist] exactly when the file is missing, with
    [File too large: ] exactly when the file exists and is over the bound
    (whatever its extension), and with [Unsupported file type: ] exactly
    when only the extension is wrong. *)
Theorem validate_file_message_cause (fs : filesystem) (path : string)
    (max_size_mb : Z) (m : string) :
  fs_wf fs →
  validate_file fs path max_size_mb = Ok (false, Some m) →
  (String.prefix "File does not exist" m = true ↔ ¬ Spec.file_exists fs path) ∧
  (String.prefix "File too large: " m = true ↔
   Spec.file_exists fs path ∧ ¬ Spec.size_within fs path max_size_mb) ∧
  (String.prefix "Unsupported file type: " m = true ↔
   Spec.file_exists fs path ∧ Spec.size_within fs path max_size_mb ∧
   ¬ Spec.extension_allowed path).
Proof.
  intros Hwf.
  destruct (validate_file_cases fs path max_size_mb Hwf)
    as [[Hno ->]|[(Hex & Hno & size & mb & _ & _ & ->)
                 |[(Hex & Hsz & Hno & ->)|[Hok ->]]]].
  - intros [= <-]. split; [|split].
    + done.
    + split; [done|]. by intros [? _].
    + split; [done|]. by intros [? _].
  - destruct (str_int max_size_mb) as [max_text|e]; [|done].
    intros [= <-]. split; [|split].
    + split; [done|]. done.
    + split; [done|]. intros _. apply prefix_app.
    + split; [done|]. by intros (_ & ? & _).
  - intros [= <-]. split; [|split].
    + split; [done|]. done.
    + split; [done|]. by intros [_ ?].
    + split; [done|]. intros _. apply prefix_app.
  - done.
Qed.

Lemma validate_file_message_cause_witness :
  String.prefix "File too large: " "File too large: 5.0MB (max: 5MB)" = true ↔
  Spec.file_exists sample_fs "uploads/big.txt" ∧
  ¬ Spec.size_within sample_fs "uploads/big.txt" 5.
Proof.
  apply (validate_file_message_cause sample_fs "uploads/big.txt" 5
           "File too large: 5.0MB (max: 5MB)").
  - apply (bool_decide_unpack _). vm_compute. exact I.
  - vm_compute. reflexivity.
Defined.

End files.

(** ** [get_file_info] *)

Section file_info.
Import Py os_path utilities.

(** The two ways [get_file_info] returns. *)
Lemma get_file_info_cases (fs : filesystem) path :
  fs_wf fs →
  (¬ Spec.file_exists fs path ∧
   get_file_info fs path = Ok {[ "error" := IStr "File not found" ]}) ∨
  (Spec.file_exists fs path ∧
   ∃ size_mb,
     float_is_finite size_mb = true ∧
     get_file_info fs path =
       Ok (<[ "filename" := IStr (basename path) ]>
           (<[ "extension" := IStr (str_lower (splitext path).2) ]>
            (<[ "size_mb" := IFloat size_mb ]>
             (<[ "exists" := IBool true ]> ∅))))).
Proof.
  intros Hwf. unfold get_file_info, exists_, getsize, Spec.file_exists.
  destruct (fs !! path) as [size|] eqn:Hsz.
  2:{ left. rewrite bool_decide_eq_false_2 by (by intros [? ?]).
      split; [by intros [? ?]|done]. }
  right. rewrite bool_decide_eq_true_2 by done. split; [done|].
  destruct (file_size_mb_shape size (Hwf path size Hsz)) as (mb & Hmb & Hshape).
  destruct (float_round_file_size mb Hshape) as (y & Hy & Hfin).
  exists y. split; [done|]. cbn. rewrite Hmb. cbn. rewrite Hy. reflexivity.
Qed.

(** X10: [get_file_info] never raises; it returns the dictionary
    [{"error": "File not found"}] exactly when the path does not exist, and
    otherwise a dictionary with the four keys [filename], [extension],
    [size_mb] and [exists], where [exists] is [True] and [size_mb] is a
    finite float. *)
Theorem get_file_info_outcome (fs : filesystem) (path : string) :
  fs_wf fs →
  ∃ d, get_file_info fs path = Ok d ∧
       (d !! "exists" = Some (IBool true) ↔ Spec.file_exists fs path) ∧
       (d !! "error" = Some (IStr "File not found") ↔ ¬ Spec.file_exists fs path) ∧
       (Spec.file_exists fs path →
        dom d = {[ "filename"; "extension"; "size_mb"; "exists" ]} ∧
        ∃ x, d !! "size_mb" = Some (IFloat x) ∧ float_is_finite x = true) ∧
       (¬ Spec.file_exists fs path → dom d = {[ "error" ]}).
Proof.
  intros Hwf.
  destruct (get_file_info_cases fs path Hwf) as [[Hno ->]|(Hex & x & Hfin & ->)];
    eexists; (split; [reflexivity|]).
  - split; [|split; [|split]].
    + split; [done|]. done.
    + done.
    + done.
    + intros _. by rewrite dom_singleton_L.
  - split; [|split; [|split]].
    + done.
    + split; [done|]. done.
    + intros _. split.
      * rewrite !dom_insert_L, dom_empty_L. set_solver.
      * by exists x.
    + done.
Qed.

Lemma get_file_info_outcome_witness :
  ∃ d, get_file_info sample_fs "uploads/cv.PDF" = Ok d ∧
       (d !! "exists" = Some (IBool true) ↔
        Spec.file_exists sample_fs "uploads/cv.PDF") ∧
       (d !! "error" = Some (IStr "File not found") ↔
        ¬ Spec.file_exists sample_fs "uploads/cv.PDF") ∧
       (Spec.file_exists sample_fs "uploads/cv.PDF" →
        dom d = {[ "filename"; "extension"; "size_mb"; "exists" ]} ∧
        ∃ x, d !! "size_mb" = Some (IFloat x) ∧ float_is_finite x = true) ∧
       (¬ Spec.file_exists sample_fs "uploads/cv.PDF" → dom d = {[ "error" ]}).
Proof.
  apply (get_file_info_outcome sample_fs "uploads/cv.PDF").
  apply (bool_decide_unpack _). vm_compute. exact I.
Defined.

(** X11: for a path of ASCII characters that [validate_file] accepts,
    the [extension] that [get_file_info] reports is one of [.pdf], [.docx],
    [.txt]: on ASCII text, lowercasing the extension of the path and taking
    the extension of the lowercased path give the same text. *)
Theorem get_file_info_extension (fs : filesystem) (path : string) (max_size_mb : Z) :
  fs_wf fs → str_isascii path = true →
  validate_file fs path max_size_mb = Ok (true, None) →
  ∃ d ext, get_file_info fs path = Ok d ∧
           d !! "extension" = Some (IStr ext) ∧
           ext ∈ [".pdf"; ".docx"; ".txt"].
Proof.
  intros Hwf _ Hok.
  apply validate_file_accepts_iff in Hok as (Hex & _ & Hext); [|done].
  destruct (get_file_info_cases fs path Hwf) as [[Hno _]|(_ & x & _ & ->)];
    [done|].
  eexists _, _. split; [reflexivity|]. split; [reflexivity|].
  unfold Spec.extension_allowed in Hext. by rewrite splitext_lower in Hext.
Qed.

Lemma get_file_info_extension_witness :
  ∃ d ext, get_file_info sample_fs "uploads/cv.PDF" = Ok d ∧
           d !! "extension" = Some (IStr ext) ∧
           ext ∈ [".pdf"; ".docx"; ".txt"].
Proof.
  apply (get_file_info_extension sample_fs "uploads/cv.PDF" 5).
  - apply (bool_decide_unpack _). vm_compute. exact I.
  - reflexivity.
  - vm_compute. reflexivity.
Defined.



End file_info.

(** ** When the reported size is zero *)

Section nonzero.
Import Py.

(** An alignment step keeps a mantissa of at least 53 bits at 53 bits or
    more. *)
Lemma shr_fexp_normal m e l mrs e' :
  2 ^ 52 ≤ m → -1000 ≤ e →
  shr_fexp prec emax m e l = (mrs, e') → 2 ^ 52 ≤ shr_m mrs.
Proof.
  intros Hm He. unfold shr_fexp, shr.
  assert (0 < 2 ^ 52) by done.
  pose proof (Zdigits2_spec m ltac:(lia)) as [Hlo Hhi].
  assert (52 < Zdigits2 m) as Hd.
  { apply (Z.pow_lt_mono_r_iff 2); [lia|apply Zdigits2_nonneg|lia]. }
  destruct (fexp prec emax (Zdigits2 m + e) - e) as [|n|n] eqn:En;
    intros [= <- <-]; rewrite ?shr_record_of_loc_m; try done.
  rewrite iter_pos_shr_1_div by (rewrite shr_record_of_loc_m; lia).
  rewrite shr_record_of_loc_m.
  assert (Z.pos n = Zdigits2 m - 53) as ->.
  { unfold fexp, SpecFloat.emin, prec, emax in En. clear - En He Hd. lia. }
  apply Z.div_le_lower_bound; [apply Z.pow_pos_nonneg; lia|].
  rewrite <- Z.pow_add_r by lia.
  replace (Zdigits2 m - 53 + 52) with (Zdigits2 m - 1) by lia. done.
Qed.

(** Rounding a mantissa of at least 53 bits never gives zero. *)
Lemma binary_round_aux_nonzero s m e l s' :
  2 ^ 52 ≤ m → -900 ≤ e →
  binary_round_aux prec emax s m e l ≠ S754_zero s'.
Proof.
  intros Hm He. unfold binary_round_aux.
  assert (0 < 2 ^ 52) by done.
  destruct (shr_fexp prec emax m e l) as [mrs1 e1] eqn:E1.
  assert (-1000 ≤ e) as He' by lia.
  pose proof (shr_fexp_normal _ _ _ _ _ Hm He' E1) as Hm1.
  apply shr_fexp_bound in E1 as [_ He1]; [|lia].
  assert (shr_m mrs1 ≤ round_nearest_even (shr_m mrs1) (loc_of_shr_record mrs1))
    as Hr.
  { destruct (loc_of_shr_record mrs1) as [|[]]; simpl; try lia.
    destruct (Z.even (shr_m mrs1)); lia. }
  destruct (shr_fexp prec emax _ e1 loc_Exact) as [mrs2 e2] eqn:E2.
  apply shr_fexp_normal in E2; [|lia..].
  destruct (shr_m mrs2) as [|p|p]; [lia| |done].
  by destruct (e2 <=? emax - prec).
Qed.

(** The quotient that the division hands to the rounding step has at least
    53 bits. *)
Lemma SFdiv_core_binary_normal a b q e l :
  0 < a < 2 ^ 64 → 0 < b < 2 ^ 64 →
  SFdiv_core_binary prec emax a 0 b 0 = (q, e, l) → 2 ^ 52 ≤ q.
Proof.
  intros Ha Hb. unfold SFdiv_core_binary.
  pose proof (Zdigits2_spec a ltac:(lia)) as [Halo Hahi].
  pose proof (Zdigits2_spec b ltac:(lia)) as [Hblo Hbhi].
  pose proof (Zdigits2_bound a 64 ltac:(lia) ltac:(lia)).
  pose proof (Zdigits2_bound b 64 ltac:(lia) ltac:(lia)).
  assert (0 < Zdigits2 a) by (destruct a; simpl; lia).
  assert (0 < Zdigits2 b) by (destruct b; simpl; lia).
  set (da := Zdigits2 a) in *. set (db := Zdigits2 b) in *.
  replace (Z.min (fexp prec emax (da + 0 - (db + 0))) (0 - 0))
    with (Z.min (da - db - 53) 0)
    by (unfold fexp, SpecFloat.emin, prec, emax; lia).
  set (s := 0 - 0 - Z.min (da - db - 53) 0).
  assert (0 ≤ s ∧ 53 + db - da ≤ s) as [Hs0 Hs] by (subst s; lia).
  set (m' := match s with Z.pos _ => _ | _ => _ end).
  assert (m' = a * 2 ^ s) as Hm'.
  { subst m'. destruct s as [|s'|s'] eqn:Es; [simpl; lia| |lia].
    by rewrite Z.shiftl_mul_pow2. }
  assert (2 ^ 52 * b ≤ m') as Hge.
  { rewrite Hm'.
    assert (2 ^ (52 + db) ≤ 2 ^ (da - 1) * 2 ^ s) as Hp.
    { rewrite <- Z.pow_add_r by lia. apply Z.pow_le_mono_r; lia. }
    rewrite Z.pow_add_r in Hp by lia.
    assert (0 < 2 ^ s) by (apply Z.pow_pos_nonneg; lia).
    assert (0 < 2 ^ 52) by done.
    nia. }
  pose proof (Z.div_le_lower_bound m' b (2 ^ 52) ltac:(lia)
                ltac:(lia)) as Hdiv.
  unfold Z.div in Hdiv.
  destruct (Z.div_eucl m' b) as [q' r']. by intros [= <- _ _].
Qed.

(** [a / b] is not zero for positive 64-bit [a] and [b]. *)
Lemma int_truediv_nonzero a b x :
  0 < a < 2 ^ 64 → 0 < b < 2 ^ 64 →
  int_truediv a b = Ok x → ∀ s, x ≠ S754_zero s.
Proof.
  intros Ha Hb. unfold int_truediv.
  destruct (b =? 0) eqn:Eb; [lia|].
  destruct (a =? 0) eqn:Ea; [lia|].
  rewrite (Z.abs_eq a), (Z.abs_eq b) by lia.
  destruct (SFdiv_core_binary prec emax a 0 b 0) as [[q e] l] eqn:E.
  pose proof (SFdiv_core_binary_normal _ _ _ _ _ Ha Hb E) as Hq.
  apply SFdiv_core_binary_bound in E as [_ He]; [|lia..].
  pose proof (binary_round_aux_nonzero (xorb (a <? 0) (b <? 0)) q e l) as Hnz.
  destruct (binary_round_aux _ _ _ _ _ _) eqn:Er; try done;
    intros [= <-] s' Hz; try done.
  by apply (Hnz s'); [lia..|].
Qed.
End nonzero.

Section file_info_size.
Import Py os_path utilities.

(** Rounding to the nearest integer gives zero exactly up to one half. *)
Lemma div_half_even_zero n d :
  0 ≤ n → 0 < d → div_half_even n d = 0 ↔ 2 * n ≤ d.
Proof.
  intros Hn Hd. unfold div_half_even.
  pose proof (Z.div_mod n d ltac:(lia)) as Hdm.
  pose proof (Z.mod_pos_bound n d Hd) as Hr.
  pose proof (Z.div_pos n d Hn Hd) as Hq.
  split.
  - destruct (Z.compare_spec (2 * (n mod d)) d) as [E|E|E];
      [destruct (Z.even (n / d))|..]; intros H0; try lia;
      rewrite H0 in Hdm; lia.
  - intros Hle. rewrite (Z.div_small n d), (Z.mod_small n d) by lia.
    by destruct (Z.compare_spec (2 * n) d); [..|lia].
Qed.

(** [round(x, 2)] of a size in megabytes is zero exactly when the rounded
    number of hundredths is. *)
Lemma float_round_file_size_zero p e :
  Z.pos p < 2 ^ 53 → -100 ≤ e ≤ 0 →
  ∃ y, float_round (S754_finite false p e) 2 = Ok y ∧
       (y = S754_zero false ↔
        (if 0 <=? e then 100 * Z.pos p * 2 ^ e
         else div_half_even (100 * Z.pos p) (2 ^ (- e))) = 0).
Proof.
  intros Hp He. unfold float_round. change (10 ^ Z.of_nat 2) with 100.
  set (n := if 0 <=? e then _ else _).
  assert (0 ≤ n < 2 ^ 64) as Hn.
  { assert (100 * 2 ^ 53 + 1 < 2 ^ 64) by done.
    subst n. destruct (0 <=? e) eqn:E.
    - assert (e = 0) as -> by lia. change (2 ^ 0) with 1. lia.
    - pose proof (div_half_even_bound (100 * Z.pos p) (2 ^ (- e)) ltac:(lia)
                    ltac:(apply Z.pow_pos_nonneg; lia)). lia. }
  destruct (n =? 0) eqn:E0.
  { eexists. split; [reflexivity|]. split; [lia|done]. }
  destruct (int_truediv_finite n 100 ltac:(lia) ltac:(done)) as (y & Hy & _).
  exists y. split; [done|]. split; [|lia].
  intros ->. by eapply (int_truediv_nonzero n 100) in Hy; [|lia|done].
Qed.

(** X17: the [size_mb] that [get_file_info] reports is [0.0] exactly for
    files of at most 5242 bytes: a size up to half a hundredth of a
    megabyte is rounded down to zero. *)
Theorem get_file_info_size_zero (fs : filesystem) (path : string) (size : Z) :
  fs_wf fs → fs !! path = Some size →
  ∃ d x, get_file_info fs path = Ok d ∧
         d !! "size_mb" = Some (IFloat x) ∧
         (x = float_lit 0 ↔ size ≤ 5242).
Proof.
  intros Hwf Hsz. pose proof (Hwf path size Hsz) as Hsize. cbv beta in Hsize.
  assert (∃ x, (mb ← int_truediv size (1024 * 1024); float_round mb 2) = Ok x ∧
               (x = float_lit 0 ↔ size ≤ 5242)) as (x & Hx & Hiff).
  { change (float_lit 0) with (S754_zero false).
    destruct (decide (size = 0)) as [->|Hne].
    { exists (S754_zero false). by split. }
    destruct (decide (size < 2 ^ 53)) as [Hsmall|Hlarge].
    - destruct (int_truediv_mb_exact size ltac:(lia)) as (p & Hmb & Hp).
      pose proof (int_truediv_mantissa _ _ _ _ _ Hmb) as Hp53.
      pose proof (Zdigits2_bound size 53 ltac:(lia) ltac:(lia)) as Hd.
      assert (0 < Zdigits2 size) as Hd0 by (destruct size; simpl; lia).
      destruct (float_round_file_size_zero p (Zdigits2 size - 73) Hp53
                  ltac:(lia)) as (y & Hy & Hz).
      exists y. rewrite Hmb. split; [exact Hy|]. rewrite Hz.
      destruct (0 <=? Zdigits2 size - 73) eqn:E; [lia|].
      rewrite div_half_even_zero by (try apply Z.pow_pos_nonneg; lia).
      rewrite Hp.
      replace (- (Zdigits2 size - 73)) with (20 + (53 - Zdigits2 size)) by lia.
      rewrite Z.pow_add_r by lia.
      assert (0 < 2 ^ (53 - Zdigits2 size)) by (apply Z.pow_pos_nonneg; lia).
      change (2 ^ 20) with 1048576. nia.
    - destruct (int_truediv_mb_large size ltac:(lia)) as (p & e & Hmb & Hp & He).
      pose proof (int_truediv_mantissa _ _ _ _ _ Hmb) as Hp53.
      destruct (float_round_file_size_zero p e Hp53 ltac:(lia)) as (y & Hy & Hz).
      exists y. rewrite Hmb. split; [exact Hy|]. rewrite Hz.
      assert (0 < 2 ^ 53) by done.
      split; [|lia]. intros H0. exfalso.
      destruct (0 <=? e) eqn:E.
      + assert (e = 0) as -> by lia. change (2 ^ 0) with 1 in H0. lia.
      + apply div_half_even_zero in H0; [|lia|apply Z.pow_pos_nonneg; lia].
        assert (2 ^ (- e) ≤ 2 ^ 19) by (apply Z.pow_le_mono_r; lia).
        assert (2 ^ 19 < 2 ^ 52) by done. lia. }
  unfold get_file_info, exists_, getsize.
  rewrite Hsz, bool_decide_eq_true_2 by done. cbn.
  destruct (int_truediv size (1024 * 1024)) as [mb|] eqn:Hmb; [|done].
  cbn in Hx |- *. rewrite Hx. cbn.
  eexists _, x. split; [reflexivity|]. split; [done|exact Hiff].
Qed.

Lemma get_file_info_size_zero_witness :
  ∃ d x, get_file_info sample_fs "uploads/.hidden" = Ok d ∧
         d !! "size_mb" = Some (IFloat x) ∧
         (x = float_lit 0 ↔ 10 ≤ 5242).
Proof.
  apply (get_file_info_size_zero sample_fs "uploads/.hidden" 10).
  - apply (bool_decide_unpack _). vm_compute. exact I.
  - reflexivity.
Defined.

End file_info_size.

(** ** [format_job_search_query] *)

Section queries.
Import Py utilities.
Local Open Scope list_scope.

Lemma lstrip_space (pre s : text) :
  Spec.all_space pre = true → lstrip (pre ++ s) = lstrip s.
Proof.
  induction pre as [|c pre IH]; [done|].
  intros [Hc Hpre]%andb_true_iff. cbn [app lstrip]. rewrite Hc. by apply IH.
Qed.

Lemma rstrip_all_space (post : text) :
  Spec.all_space post = true → rstrip post = [].
Proof.
  induction post as [|c post IH]; [done|].
  intros [Hc Hpost]%andb_true_iff. cbn [rstrip]. by rewrite IH, Hc.
Qed.

Lemma rstrip_space (s post : text) :
  Spec.all_space post = true → rstrip (s ++ post) = rstrip s.
Proof.
  intros Hpost. induction s as [|c s IH].
  - by apply rstrip_all_space.
  - cbn [app rstrip]. by rewrite IH.
Qed.

Lemma all_space_lstrip (s : text) : Spec.all_space s = true → lstrip s = [].
Proof.
  induction s as [|c s IH]; [done|].
  intros [Hc Hs]%andb_true_iff. cbn [lstrip]. rewrite Hc. by apply IH.
Qed.

Lemma strip_app_space (s post : text) :
  Spec.all_space post = true → strip (s ++ post) = strip s.
Proof.
  intros Hpost. unfold strip. induction s as [|c s IH].
  - by rewrite all_space_lstrip.
  - cbn [app lstrip]. destruct (isspace c); [exact IH|].
    by apply (rstrip_space (c :: s)).
Qed.

(** White space around a text does not change what [strip] returns. *)
Lemma strip_padding (pre s post : text) :
  Spec.all_space pre = true → Spec.all_space post = true →
  strip (pre ++ s ++ post) = strip s.
Proof.
  intros Hpre Hpost. unfold strip. rewrite lstrip_space by done.
  by apply strip_app_space.
Qed.

(** X13: white space before and after the job title, ASCII or not, does
    not change the query, whatever [str.lower] makes of the location. *)
Theorem format_job_search_query_padding (lower : text → text)
    (pre job_title post location : text) :
  Spec.all_space pre = true → Spec.all_space post = true →
  format_job_search_query lower (pre ++ job_title ++ post) location
  = format_job_search_query lower job_title location.
Proof.
  intros Hpre Hpost. unfold format_job_search_query.
  by rewrite strip_padding.
Qed.

Lemma format_job_search_query_padding_witness :
  format_job_search_query id
    ([160%N; 32%N] ++ text_of "Data Engineer" ++ [8195%N; 10%N]) (text_of "Berlin")
  = format_job_search_query id (text_of "Data Engineer") (text_of "Berlin").
Proof.
  apply (format_job_search_query_padding id [160%N; 32%N]
           (text_of "Data Engineer") [8195%N; 10%N] (text_of "Berlin"));
    vm_compute; reflexivity.
Defined.

End queries.

(** ** [format_context_for_llm] *)

Section context.
Import Py utilities.
Context {V : Type} (truthy : V → bool) (str : V → string).


Lemma append_field_present (context : gmap string V) key label parts :
  Spec.field_present truthy context key →
  ∃ v, append_field truthy str context key label parts = (parts ++ [label +:+ str v])%list.
Proof.
  intros (v & Hv & Ht). exists v. unfold append_field. by rewrite Hv, Ht.
Qed.

Lemma append_field_absent (context : gmap string V) key label parts :
  ¬ Spec.field_present truthy context key →
  append_field truthy str context key label parts = parts.
Proof.
  intros H. unfold append_field.
  destruct (context !! key) as [v|] eqn:Hv; [|done].
  destruct (truthy v) eqn:Ht; [|done]. destruct H. by exists v.
Qed.

Lemma field_present_dec (context : gmap string V) key :
  Spec.field_present truthy context key ∨ ¬ Spec.field_present truthy context key.
Proof.
  unfold Spec.field_present. destruct (context !! key) as [v|]; [|right; by intros (? & ? & ?)].
  destruct (truthy v) eqn:E; [left; by exists v|].
  right. intros (v' & [= <-] & ?). congruence.
Qed.

(** X15: the text is empty exactly when none of the four keys
    [target_job_title], [target_industry], [experience_level] and
    [target_location] has a true value: a missing key, [None] and an empty
    value all leave a field out. *)
Theorem format_context_for_llm_empty (context : gmap string V) :
  format_context_for_llm truthy str context = "" ↔
  ∀ key, key ∈ Spec.context_keys → ¬ Spec.field_present truthy context key.
Proof.
  unfold format_context_for_llm, Spec.context_keys. cbv zeta.
  destruct (field_present_dec context "target_job_title") as [H1|H1],
           (field_present_dec context "target_industry") as [H2|H2],
           (field_present_dec context "experience_level") as [H3|H3],
           (field_present_dec context "target_location") as [H4|H4].
  all: try (destruct (append_field_present context "target_job_title"
                        "Target Job: " [] H1) as [v1 ->]).
  all: rewrite ?(append_field_absent context "target_job_title") by done.
  all: try (match goal with |- context [append_field _ _ _ "target_industry" ?l ?p] =>
         destruct (append_field_present context "target_industry" l p H2) as [v2 ->] end).
  all: rewrite ?(append_field_absent context "target_industry") by done.
  all: try (match goal with |- context [append_field _ _ _ "experience_level" ?l ?p] =>
         destruct (append_field_present context "experience_level" l p H3) as [v3 ->] end).
  all: rewrite ?(append_field_absent context "experience_level") by done.
  all: try (match goal with |- context [append_field _ _ _ "target_location" ?l ?p] =>
         destruct (append_field_present context "target_location" l p H4) as [v4 ->] end).
  all: rewrite ?(append_field_absent context "target_location") by done.
  all: split.
  all: try (intros H; vm_compute in H; discriminate H).
  all: try (intros H; exfalso;
            first [ apply (H "target_job_title"); [by_eval|done]
                  | apply (H "target_industry"); [by_eval|done]
                  | apply (H "experience_level"); [by_eval|done]
                  | apply (H "target_location"); [by_eval|done] ]).
  - intros _ key Hkey.
    repeat (apply elem_of_cons in Hkey as [->|Hkey]; [done|]).
    by apply elem_of_nil in Hkey.
  - done.
Qed.

(** X16: a key other than [target_job_title], [target_industry],
    [experience_level] and [target_location] does not matter: setting it
    or deleting it leaves the text as it was. *)
Theorem format_context_for_llm_frame (context : gmap string V) key v :
  key ∉ Spec.context_keys →
  format_context_for_llm truthy str (<[key := v]> context)
  = format_context_for_llm truthy str context ∧
  format_context_for_llm truthy str (delete key context)
  = format_context_for_llm truthy str context.
Proof.
  intros Hkey. unfold format_context_for_llm, append_field.
  assert (∀ k, k ∈ Spec.context_keys → key ≠ k) as Hne.
  { intros k Hk ->. done. }
  rewrite !lookup_insert_ne, !lookup_delete_ne by (apply Hne; by_eval).
  done.
Qed.

End context.

Lemma format_context_for_llm_frame_witness :
  utilities.format_context_for_llm (λ v : string, negb (bool_decide (v = ""))) id
    (<[ "user_id" := "u42" ]> {[ "target_job_title" := "Data Engineer" ]})
  = utilities.format_context_for_llm (λ v : string, negb (bool_decide (v = ""))) id
      {[ "target_job_title" := "Data Engineer" ]} ∧
  utilities.format_context_for_llm (λ v : string, negb (bool_decide (v = ""))) id
    (delete "user_id" {[ "target_job_title" := "Data Engineer" ]})
  = utilities.format_context_for_llm (λ v : string, negb (bool_decide (v = ""))) id
      {[ "target_job_title" := "Data Engineer" ]}.
Proof.
  apply (format_context_for_llm_frame (λ v : string, negb (bool_decide (v = ""))) id
           {[ "target_job_title" := "Data Engineer" ]} "user_id" "u42").
  apply (bool_decide_unpack _). vm_compute. exact I.
Defined.
